(** * Mock Interviewer API (main.py): a shallow embedding and its properties

    The service has two POST handlers, [generate_questions] and
    [analyze_responses].  Both call a hosted chat model, post-process its
    free text, and answer with JSON; the first one also caches its answer in
    Redis for an hour.  This file embeds the handlers as functions over an
    explicit cache, an explicit clock and the model's reply, together with the
    Python built-ins they rely on ([str.strip], [str.split], [repr], [eval] on
    list displays, [json.loads], [json.dumps]). *)

From Stdlib Require Import ZArith NArith List Ascii String Lia Bool DecimalString.
From Stdlib Require DecimalPos DecimalZ.
From stdpp Require Import gmap list.

Local Open Scope N_scope.
Set Warnings "-register-all".

(** ** Python strings

    A Python [str] is a sequence of Unicode code points; a code point is a
    number below [0x110000]. *)

Abbreviation pystr := (list N).

Definition ord (a : ascii) : N := N_of_ascii a.

(** An ASCII literal of the source as a [pystr]. *)
Definition lit (s : string) : pystr := map ord (list_ascii_of_string s).

Definition max_code_point : N := 0x10FFFF.

Definition valid_str (s : pystr) : Prop := Forall (λ c, c <= max_code_point) s.

(** What differs between interpreters, processes or Unicode versions is kept
    abstract: [hash] of a string is keyed by a seed drawn when the process
    starts and is a fixed function for the life of that process, and the digit
    and printable tables beyond ASCII belong to the Unicode database the
    interpreter was built with.  [float_repr lit] is [repr (float lit)] for a
    JSON number literal [lit] (or one of NaN, Infinity, -Infinity).  An
    [Interpreter] stands for one running process. *)
Class Interpreter : Type := {
  str_hash : pystr → Z;
  unicode_isdigit : N → bool;
  unicode_isprintable : N → bool;
  float_repr : pystr → pystr
}.

Module Py.

(** [str.isspace] of one character, as [str.strip ()] uses it: the code points
    of bidirectional type WS, B or S, or of category Zs. *)
Definition isspace (c : N) : bool :=
  ((0x09 <=? c) && (c <=? 0x0D)) || ((0x1C <=? c) && (c <=? 0x20))
  || (c =? 0x85) || (c =? 0xA0) || (c =? 0x1680)
  || ((0x2000 <=? c) && (c <=? 0x200A))
  || (c =? 0x2028) || (c =? 0x2029) || (c =? 0x202F) || (c =? 0x205F)
  || (c =? 0x3000).

Definition ascii_isdigit (c : N) : bool := (0x30 <=? c) && (c <=? 0x39).

(** [c.isdigit ()] *)
Definition isdigit `{Interpreter} (c : N) : bool :=
  if c <? 0x80 then ascii_isdigit c else unicode_isdigit c.

(** [s.lstrip ()], [s.rstrip ()], [s.strip ()] *)
Fixpoint lstrip (s : pystr) : pystr :=
  match s with
  | c :: s' => if isspace c then lstrip s' else s
  | [] => []
  end.

Definition rstrip (s : pystr) : pystr := rev (lstrip (rev s)).

Definition strip (s : pystr) : pystr := rstrip (lstrip s).

(** [s.startswith p] *)
Fixpoint startswith (p s : pystr) : bool :=
  match p, s with
  | [], _ => true
  | a :: p', b :: s' => (a =? b) && startswith p' s'
  | _ :: _, [] => false
  end.

(** [sub in s] *)
Fixpoint contains (sub s : pystr) : bool :=
  startswith sub s ||
  match s with
  | [] => false
  | _ :: s' => contains sub s'
  end.

(** [s.split (sep)] for a one-character separator: never an empty list. *)
Fixpoint split (sep : N) (s : pystr) : list pystr :=
  match s with
  | [] => [[]]
  | c :: s' =>
      if c =? sep then [] :: split sep s'
      else match split sep s' with
           | l :: ls => (c :: l) :: ls
           | [] => [[c]]
           end
  end.

(** [s.split (sep, 1)]: cut at the first separator, if there is one. *)
Fixpoint split1 (sep : N) (s : pystr) : list pystr :=
  match s with
  | [] => [[]]
  | c :: s' =>
      if c =? sep then [[]; s']
      else match split1 sep s' with
           | l :: ls => (c :: l) :: ls
           | [] => [[c]]
           end
  end.

(** [s.rsplit (sep, 1)]: cut at the last separator, if there is one. *)
Definition rsplit1 (sep : N) (s : pystr) : list pystr :=
  match split1 sep (rev s) with
  | [a; b] => [rev b; rev a]
  | _ => [s]
  end.

(** [sep.join (l)] *)
Fixpoint join (sep : pystr) (l : list pystr) : pystr :=
  match l with
  | [] => []
  | [x] => x
  | x :: l' => x ++ sep ++ join sep l'
  end.

(** [s[:n]] *)
Definition slice_to (n : nat) (s : pystr) : pystr := firstn n s.

(** *** [repr] of a string and [str] of a list of strings *)

Definition squote : N := 0x27.
Definition dquote : N := 0x22.
Definition backslash : N := 0x5C.

Definition hexdigit (d : N) : N :=
  nth (N.to_nat d) (lit "0123456789abcdef") (ord "0").

(** [n] written with exactly [k] lower-case hexadecimal digits. *)
Fixpoint hex_fixed (k : nat) (n : N) : pystr :=
  match k with
  | O => []
  | S k' => hex_fixed k' (n / 16) ++ [hexdigit (n mod 16)]
  end.

(** The quote [repr] chooses: a double quote only when the string holds a
    single quote and no double quote. *)
Definition repr_quote (s : pystr) : N :=
  if existsb (N.eqb squote) s && negb (existsb (N.eqb dquote) s)
  then dquote else squote.

(** One character of [repr s], inside quotes [quote]. *)
Definition repr_char `{Interpreter} (quote c : N) : pystr :=
  if (c =? quote) || (c =? backslash) then [backslash; c]
  else if c =? 0x09 then lit "\t"
  else if c =? 0x0A then lit "\n"
  else if c =? 0x0D then lit "\r"
  else if (c <? 0x20) || (c =? 0x7F) then lit "\x" ++ hex_fixed 2 c
  else if c <? 0x7F then [c]
  else if unicode_isprintable c then [c]
  else if c <=? 0xFF then lit "\x" ++ hex_fixed 2 c
  else if c <=? 0xFFFF then lit "\u" ++ hex_fixed 4 c
  else lit "\U" ++ hex_fixed 8 c.

(** [repr (s)] *)
Definition repr `{Interpreter} (s : pystr) : pystr :=
  let q := repr_quote s in
  q :: flat_map (repr_char q) s ++ [q].

(** [str (l)] for a list of strings [l]. *)
Definition str_of_list `{Interpreter} (l : list pystr) : pystr :=
  lit "[" ++ join (lit ", ") (map repr l) ++ lit "]".

(** *** [eval] on list displays of string literals

    [eval] runs any Python expression.  The model covers the texts that are a
    list display of plain string literals separated by a comma and a space,
    which is what [str] of a list of strings writes; on every other text the
    outcome is [EvalOther], about which nothing is said. *)

Inductive eval_result : Type :=
  | EvalList (l : list pystr)
  | EvalOther.

Definition hexval (c : N) : option N :=
  if (0x30 <=? c) && (c <=? 0x39) then Some (c - 0x30)
  else if (0x61 <=? c) && (c <=? 0x66) then Some (c - 0x61 + 10)
  else if (0x41 <=? c) && (c <=? 0x46) then Some (c - 0x41 + 10)
  else None.

Fixpoint hexnum (acc : N) (ds : pystr) : option N :=
  match ds with
  | [] => Some acc
  | d :: ds' =>
      match hexval d with
      | Some v => hexnum (16 * acc + v) ds'
      | None => None
      end
  end.

(** A character that may stand for itself inside a literal of the fragment. *)
Definition raw_ok `{Interpreter} (c : N) : bool :=
  if c <? 0x80 then (0x20 <=? c) && (c <? 0x7F) else unicode_isprintable c.

(** The body of a string literal opened by [q]: the decoded string and the
    text after the closing quote. *)
Fixpoint scan_literal `{Interpreter} (q : N) (s : pystr) : option (pystr * pystr) :=
  let more (c : N) (rest : option (pystr * pystr)) :=
    match rest with
    | Some (v, r) => Some (c :: v, r)
    | None => None
    end in
  match s with
  | [] => None
  | c :: s1 =>
      if c =? q then Some ([], s1)
      else if c =? backslash then
        match s1 with
        | [] => None
        | e :: s2 =>
            if (e =? backslash) || (e =? squote) || (e =? dquote)
            then more e (scan_literal q s2)
            else if e =? ord "t" then more 0x09 (scan_literal q s2)
            else if e =? ord "n" then more 0x0A (scan_literal q s2)
            else if e =? ord "r" then more 0x0D (scan_literal q s2)
            else if e =? ord "x" then
              match s2 with
              | h1 :: h2 :: s3 =>
                  match hexnum 0 [h1; h2] with
                  | Some n => more n (scan_literal q s3)
                  | None => None
                  end
              | _ => None
              end
            else if e =? ord "u" then
              match s2 with
              | h1 :: h2 :: h3 :: h4 :: s3 =>
                  match hexnum 0 [h1; h2; h3; h4] with
                  | Some n => more n (scan_literal q s3)
                  | None => None
                  end
              | _ => None
              end
            else if e =? ord "U" then
              match s2 with
              | h1 :: h2 :: h3 :: h4 :: h5 :: h6 :: h7 :: h8 :: s3 =>
                  match hexnum 0 [h1; h2; h3; h4; h5; h6; h7; h8] with
                  | Some n =>
                      if n <=? max_code_point then more n (scan_literal q s3)
                      else None
                  | None => None
                  end
              | _ => None
              end
            else None
        end
      else if raw_ok c then more c (scan_literal q s1)
      else None
  end.

(** The literals of a display, from the first one to the closing bracket.
    [fuel] bounds the number of literals; a display that needs more is left
    outside the fragment. *)
Fixpoint parse_items `{Interpreter} (fuel : nat) (s : pystr) : option (list pystr) :=
  match fuel with
  | O => None
  | S fuel' =>
      match s with
      | [] => None
      | q :: s1 =>
          if (q =? squote) || (q =? dquote) then
            match scan_literal q s1 with
            | Some (v, [c]) => if c =? ord "]" then Some [v] else None
            | Some (v, c1 :: c2 :: r) =>
                if (c1 =? ord ",") && (c2 =? ord " ")
                then match parse_items fuel' r with
                     | Some l => Some (v :: l)
                     | None => None
                     end
                else None
            | _ => None
            end
          else None
      end
  end.

(** [eval (text)] *)
Definition eval `{Interpreter} (text : pystr) : eval_result :=
  match text with
  | o :: s1 =>
      if o =? ord "[" then
        match s1 with
        | [c] => if c =? ord "]" then EvalList [] else EvalOther
        | _ => match parse_items (length s1) s1 with
               | Some l => EvalList l
               | None => EvalOther
               end
        end
      else EvalOther
  | [] => EvalOther
  end.

End Py.

(** ** JSON values, [json.loads] and [json.dumps]

    The decoder follows CPython's scanner: [scan_once] dispatches on the first
    character, arrays and objects loop over their items, strings are decoded
    in strict mode.  An object becomes a [dict]: a later duplicate key
    overwrites the value and keeps the first position.  A number without
    fraction and exponent is an [int]; any other number is a [float], kept as
    its literal.  Interpreter resource limits (recursion depth, the digit limit
    of [int]) are not part of the model. *)
Module Json.

Inductive value : Type :=
  | Null
  | Bool (b : bool)
  | Int (z : Z)
  | Float (literal : pystr)
  | Str (s : pystr)
  | Arr (items : list value)
  | Obj (members : list (pystr * value)).

Definition str_eqb (a b : pystr) : bool := bool_decide (a = b).

(** [d[k]] as a lookup: [None] when the key is absent. *)
Fixpoint dict_get (k : pystr) (d : list (pystr * value)) : option value :=
  match d with
  | [] => None
  | (k', v) :: d' => if str_eqb k k' then Some v else dict_get k d'
  end.

(** [d[k] = v] *)
Fixpoint dict_set (k : pystr) (v : value) (d : list (pystr * value)) : list (pystr * value) :=
  match d with
  | [] => [(k, v)]
  | (k', v') :: d' =>
      if str_eqb k k' then (k, v) :: d' else (k', v') :: dict_set k v d'
  end.

(** [dict (pairs)] *)
Definition dict_of_pairs (pairs : list (pystr * value)) : list (pystr * value) :=
  fold_left (λ d kv, dict_set kv.1 kv.2 d) pairs [].

Inductive scan (A : Type) : Type :=
  | Scanned (a : A) (rest : pystr)
  | Invalid
  | NoFuel.
Arguments Scanned {A} a rest.
Arguments Invalid {A}.
Arguments NoFuel {A}.

Definition is_ws (c : N) : bool :=
  (c =? 0x20) || (c =? 0x09) || (c =? 0x0A) || (c =? 0x0D).

Fixpoint skip_ws (s : pystr) : pystr :=
  match s with
  | c :: s' => if is_ws c then skip_ws s' else s
  | [] => []
  end.

Definition simple_escape (e : N) : option N :=
  if (e =? Py.dquote) || (e =? Py.backslash) || (e =? ord "/") then Some e
  else if e =? ord "b" then Some 0x08
  else if e =? ord "f" then Some 0x0C
  else if e =? ord "n" then Some 0x0A
  else if e =? ord "r" then Some 0x0D
  else if e =? ord "t" then Some 0x09
  else None.

Definition is_high_surrogate (n : N) : bool := (0xD800 <=? n) && (n <=? 0xDBFF).
Definition is_low_surrogate (n : N) : bool := (0xDC00 <=? n) && (n <=? 0xDFFF).
Definition join_surrogates (hi lo : N) : N :=
  0x10000 + (hi - 0xD800) * 0x400 + (lo - 0xDC00).

(** The body of a JSON string after its opening quote (strict mode). *)
Fixpoint scanstring (s : pystr) : option (pystr * pystr) :=
  let more (c : N) (rest : option (pystr * pystr)) :=
    match rest with
    | Some (v, r) => Some (c :: v, r)
    | None => None
    end in
  match s with
  | [] => None
  | c :: s1 =>
      if c =? Py.dquote then Some ([], s1)
      else if c =? Py.backslash then
        match s1 with
        | [] => None
        | e :: s2 =>
            if e =? ord "u" then
              match s2 with
              | h1 :: h2 :: h3 :: h4 :: s3 =>
                  match Py.hexnum 0 [h1; h2; h3; h4] with
                  | None => None
                  | Some n =>
                      match s3 with
                      | b :: u :: g1 :: g2 :: g3 :: g4 :: s4 =>
                          if is_high_surrogate n && (b =? Py.backslash) && (u =? ord "u")
                          then match Py.hexnum 0 [g1; g2; g3; g4] with
                               | None => None
                               | Some m =>
                                   if is_low_surrogate m
                                   then more (join_surrogates n m) (scanstring s4)
                                   else more n (scanstring s3)
                               end
                          else more n (scanstring s3)
                      | _ => more n (scanstring s3)
                      end
                  end
              | _ => None
              end
            else match simple_escape e with
                 | Some c' => more c' (scanstring s2)
                 | None => None
                 end
        end
      else if c <? 0x20 then None
      else more c (scanstring s1)
  end.

Fixpoint span_digits (s : pystr) : pystr * pystr :=
  match s with
  | c :: s' =>
      if Py.ascii_isdigit c
      then let '(d, r) := span_digits s' in (c :: d, r)
      else ([], s)
  | [] => ([], [])
  end.

Definition int_of_digits (ds : pystr) : Z :=
  fold_left (λ acc d, (10 * acc + Z.of_N (d - 0x30))%Z) ds 0%Z.

(** The scanner's number matcher: sign, integer part, then fraction and
    exponent where they are complete. *)
Definition match_number (s : pystr) : scan value :=
  let '(neg, s0) :=
    match s with
    | c :: s' => if c =? ord "-" then (true, s') else (false, s)
    | [] => (false, s)
    end in
  match s0 with
  | [] => Invalid
  | c :: s1 =>
      let int_part :=
        if c =? ord "0" then Some ([c], s1)
        else if Py.ascii_isdigit c
             then let '(d, r) := span_digits s1 in Some (c :: d, r)
             else None in
      match int_part with
      | None => Invalid
      | Some (ds, r) =>
          let '(frac, r1) :=
            match r with
            | dot :: d :: r' =>
                if (dot =? ord ".") && Py.ascii_isdigit d
                then let '(fd, r'') := span_digits (d :: r') in (dot :: fd, r'')
                else ([], r)
            | _ => ([], r)
            end in
          let '(exp, r2) :=
            match r1 with
            | e :: r' =>
                if (e =? ord "e") || (e =? ord "E") then
                  let '(sign, r'') :=
                    match r' with
                    | sg :: t => if (sg =? ord "-") || (sg =? ord "+")
                                 then ([sg], t) else ([], r')
                    | [] => ([], r')
                    end in
                  match span_digits r'' with
                  | ([], _) => ([], r1)
                  | (ed, r3) => (e :: sign ++ ed, r3)
                  end
                else ([], r1)
            | [] => ([], r1)
            end in
          match frac, exp with
          | [], [] =>
              Scanned (Int (if neg then - int_of_digits ds else int_of_digits ds)%Z) r2
          | _, _ =>
              Scanned (Float ((if neg then [ord "-"] else []) ++ ds ++ frac ++ exp)) r2
          end
      end
  end.

(** The items of an array, from the first value to the closing bracket.
    [n] bounds the turns of the loop and [rec] scans a nested value. *)
Fixpoint parse_items (rec : pystr → scan value) (n : nat) (s : pystr)
  : scan (list value) :=
  match n with
  | O => NoFuel
  | S n' =>
      match rec s with
      | Scanned v r =>
          match skip_ws r with
          | c :: r' =>
              if c =? ord "]" then Scanned [v] r'
              else if c =? ord "," then
                match parse_items rec n' (skip_ws r') with
                | Scanned vs r'' => Scanned (v :: vs) r''
                | Invalid => Invalid
                | NoFuel => NoFuel
                end
              else Invalid
          | [] => Invalid
          end
      | Invalid => Invalid
      | NoFuel => NoFuel
      end
  end.

(** The members of an object, from the first key to the closing brace.
    [n] bounds the turns of the loop and [rec] scans a nested value. *)
Fixpoint parse_members (rec : pystr → scan value) (n : nat) (s : pystr)
  : scan (list (pystr * value)) :=
  match n with
  | O => NoFuel
  | S n' =>
      match s with
      | q :: s1 =>
          if q =? Py.dquote then
            match scanstring s1 with
            | Some (k, r) =>
                match skip_ws r with
                | colon :: r1 =>
                    if colon =? ord ":" then
                      match rec (skip_ws r1) with
                      | Scanned v r2 =>
                          match skip_ws r2 with
                          | c :: r3 =>
                              if c =? ord "}" then Scanned [(k, v)] r3
                              else if c =? ord "," then
                                match parse_members rec n' (skip_ws r3) with
                                | Scanned kvs r4 => Scanned ((k, v) :: kvs) r4
                                | Invalid => Invalid
                                | NoFuel => NoFuel
                                end
                              else Invalid
                          | [] => Invalid
                          end
                      | Invalid => Invalid
                      | NoFuel => NoFuel
                      end
                    else Invalid
                | [] => Invalid
                end
            | None => Invalid
            end
          else Invalid
      | [] => Invalid
      end
  end.

Definition keyword (w : string) (v : value) (s : pystr) : option (scan value) :=
  if Py.startswith (lit w) s then Some (Scanned v (skipn (String.length w) s))
  else None.

(** One value at the head of [s]; [rec] scans a nested value. *)
Definition scan_value (rec : pystr → scan value) (s : pystr) : scan value :=
  match s with
  | [] => Invalid
  | c :: s1 =>
      if c =? Py.dquote then
        match scanstring s1 with
        | Some (v, r) => Scanned (Str v) r
        | None => Invalid
        end
      else if c =? ord "{" then
        match skip_ws s1 with
        | [] => Invalid
        | c2 :: r =>
            if c2 =? ord "}" then Scanned (Obj []) r
            else match parse_members rec (length s1) (skip_ws s1) with
                 | Scanned kvs r' => Scanned (Obj (dict_of_pairs kvs)) r'
                 | Invalid => Invalid
                 | NoFuel => NoFuel
                 end
        end
      else if c =? ord "[" then
        match skip_ws s1 with
        | [] => Invalid
        | c2 :: r =>
            if c2 =? ord "]" then Scanned (Arr []) r
            else match parse_items rec (length s1) (skip_ws s1) with
                 | Scanned vs r' => Scanned (Arr vs) r'
                 | Invalid => Invalid
                 | NoFuel => NoFuel
                 end
        end
      else
        match keyword "null" Null s with Some r => r | None =>
        match keyword "true" (Bool true) s with Some r => r | None =>
        match keyword "false" (Bool false) s with Some r => r | None =>
        match keyword "NaN" (Float (lit "NaN")) s with Some r => r | None =>
        match keyword "Infinity" (Float (lit "Infinity")) s with Some r => r | None =>
        match keyword "-Infinity" (Float (lit "-Infinity")) s with Some r => r | None =>
        match_number s
        end end end end end end
  end.

(** The scanner, with [fuel] bounding the depth of nesting.  [NoFuel] is the
    outcome of a run that needed more; a fuel above the length of the text is
    never used up. *)
Fixpoint scan_once (fuel : nat) (s : pystr) : scan value :=
  match fuel with
  | O => NoFuel
  | S fuel' => scan_value (scan_once fuel') s
  end.

(** [json.loads (s)]: [None] stands for a raised [JSONDecodeError]. *)
Definition loads (s : pystr) : option value :=
  if Py.startswith [0xFEFF] s then None
  else match scan_once (S (length s)) (skip_ws s) with
       | Scanned v r =>
           match skip_ws r with
           | [] => Some v
           | _ :: _ => None
           end
       | _ => None
       end.

(** [json.dumps] with its defaults: ASCII-only output, [", "] and [": "]. *)
Definition escape_char (c : N) : pystr :=
  if c =? Py.dquote then [Py.backslash; Py.dquote]
  else if c =? Py.backslash then [Py.backslash; Py.backslash]
  else if c =? 0x0A then lit "\n"
  else if c =? 0x0D then lit "\r"
  else if c =? 0x09 then lit "\t"
  else if c =? 0x08 then lit "\b"
  else if c =? 0x0C then lit "\f"
  else if (0x20 <=? c) && (c <=? 0x7E) then [c]
  else if c <? 0x10000 then lit "\u" ++ Py.hex_fixed 4 c
  else lit "\u" ++ Py.hex_fixed 4 (0xD800 + (c - 0x10000) / 0x400)
       ++ lit "\u" ++ Py.hex_fixed 4 (0xDC00 + (c - 0x10000) mod 0x400).

Definition encode_string (s : pystr) : pystr :=
  Py.dquote :: flat_map escape_char s ++ [Py.dquote].

(** [str (z)] for an [int]. *)
Definition str_of_int (z : Z) : pystr :=
  lit (NilZero.string_of_int (Z.to_int z)).

Fixpoint dumps `{Interpreter} (v : value) : pystr :=
  match v with
  | Null => lit "null"
  | Bool true => lit "true"
  | Bool false => lit "false"
  | Int z => str_of_int z
  | Float l => float_repr l
  | Str s => encode_string s
  | Arr l => lit "[" ++ Py.join (lit ", ") (map dumps l) ++ lit "]"
  | Obj d =>
      lit "{"
      ++ Py.join (lit ", ")
           (map (λ kv, encode_string kv.1 ++ lit ": " ++ dumps kv.2) d)
      ++ lit "}"
  end.

End Json.

(** ** The world a handler runs in: Redis, the chat model, a log of calls *)

(** A Redis value and the instant (in seconds) at which it expires.  The
    client is created with [decode_responses=True]: a text comes back as the
    text that was stored.  A request is served at one instant. *)
Abbreviation redis_store := (gmap pystr (pystr * Z)).

Record message : Type := { role : pystr; content : pystr }.

(** What [openai.ChatCompletion.create] does with a prompt: it returns the
    text of the first choice or raises. *)
Inductive completion : Type :=
  | Content (text : pystr)
  | ApiError (msg : pystr).

Definition chat_model : Type := list message → completion.

(** Every text the model returns is a Python string. *)
Definition model_valid (model : chat_model) : Prop :=
  ∀ msgs text, model msgs = Content text → valid_str text.

(** The calls a handler makes to its collaborators, in order. *)
Inductive event : Type :=
  | CacheGet (key : pystr)
  | CacheSet (key : pystr) (ttl : Z) (val : pystr)
  | ModelCall (messages : list message).

Record world : Type := { redis : redis_store; log : list event }.

Inductive exn : Type :=
  | HTTPException (status_code : Z) (detail : detail)
  | OpenAIError (msg : pystr)
  | KeyError (key : pystr)
  | IndexError
  | TypeError
  | JSONDecodeError
with detail : Type :=
  | Text (s : pystr)
  | StrOf (e : exn).

(** How a Python block ends: with a value, with a raised exception, or in a
    way the model does not cover ([eval] outside its fragment). *)
Inductive result (A : Type) : Type :=
  | Ok (a : A)
  | Raised (e : exn)
  | Unmodelled.
Arguments Ok {A} a.
Arguments Raised {A} e.
Arguments Unmodelled {A}.

#[global] Instance result_ret : MRet result := λ A a, Ok a.
#[global] Instance result_bind : MBind result := λ A B f m,
  match m with
  | Ok a => f a
  | Raised e => Raised e
  | Unmodelled => Unmodelled
  end.

(** [try: body except Exception as e: handler (e)] where nothing touches the
    cache or the model. *)
Definition catch {A : Type} (body : result A) (handler : exn → result A) : result A :=
  match body with
  | Raised e => handler e
  | other => other
  end.

(** A block that also reads and writes the world. *)
Definition py (A : Type) : Type := world → result A * world.

#[global] Instance py_ret : MRet py := λ A a w, (Ok a, w).
#[global] Instance py_bind : MBind py := λ A B f m w,
  match m w with
  | (Ok a, w') => f a w'
  | (Raised e, w') => (Raised e, w')
  | (Unmodelled, w') => (Unmodelled, w')
  end.

Definition raise {A : Type} (e : exn) : py A := λ w, (Raised e, w).

(** A block without effects, run inside one with effects. *)
Definition lift {A : Type} (r : result A) : py A := λ w, (r, w).

(** [try: body except Exception as e: handler (e)] *)
Definition try_except {A : Type} (body : py A) (handler : exn → py A) : py A :=
  λ w, match body w with
       | (Raised e, w') => handler e w'
       | other => other
       end.

(** [redis_client.get (key)] at instant [now]: an entry is served up to and
    including its expiry instant and is gone after it. *)
Definition redis_lookup (now : Z) (key : pystr) (store : redis_store) : option pystr :=
  match store !! key with
  | Some (v, expires) => if (now <=? expires)%Z then Some v else None
  | None => None
  end.

Definition redis_get (now : Z) (key : pystr) : py (option pystr) :=
  λ w, (Ok (redis_lookup now key (redis w)),
        {| redis := redis w; log := log w ++ [CacheGet key] |}).

(** [redis_client.setex (key, ttl, val)] at instant [now]. *)
Definition redis_setex (now : Z) (key : pystr) (ttl : Z) (val : pystr) : py unit :=
  λ w, (Ok (),
        {| redis := <[key := (val, (now + ttl)%Z)]> (redis w);
           log := log w ++ [CacheSet key ttl val] |}).

(** [openai.ChatCompletion.create (...).choices[0].message.content]; both
    handlers pass the same model name, temperature 0.7 and 1000 tokens. *)
Definition chat_completion (model : chat_model) (messages : list message) : py pystr :=
  λ w, (match model messages with
        | Content text => Ok text
        | ApiError msg => Raised (OpenAIError msg)
        end,
        {| redis := redis w; log := log w ++ [ModelCall messages] |}).

(** [eval (text)] *)
Definition py_eval `{Interpreter} (text : pystr) : result (list pystr) :=
  match Py.eval text with
  | Py.EvalList l => Ok l
  | Py.EvalOther => Unmodelled
  end.

(** [l[i]] on a list: [IndexError] out of range. *)
Definition getitem {A : Type} (l : list A) (i : nat) : result A :=
  match l !! i with
  | Some x => Ok x
  | None => Raised IndexError
  end.

(** ** main.py *)

Record JobDescription : Type := { title : pystr; description : pystr }.

Record InterviewRequest : Type := { job_desc : JobDescription }.

(** [answers: List[Dict[str, str]]] *)
Record InterviewResponse : Type := { answers : list (gmap pystr pystr) }.

(** The JSON body of a successful answer. *)
Inductive body : Type :=
  | Questions (questions : list pystr)
  | Feedback (feedback : pystr).

Definition NL : N := 10.

Definition text_lines (l : list string) : pystr := Py.join [NL] (map lit l).

Definition SYSTEM_PROMPT : pystr := text_lines [
  "You are an experienced technical interviewer conducting interviews for various tech positions. ";
  "Your goal is to assess candidates' technical knowledge, problem-solving abilities, and communication skills.";
  "Ask relevant technical questions based on the job title and description provided. Focus on both technical depth and soft skills.";
  "Provide constructive feedback that helps candidates improve." ]%string.

(** ** The question filter (main.py, lines 149-150) *)

(** The [if] clause of the comprehension:
    [q.strip() and q.strip()[0].isdigit() and ". " in q.strip()[:10]]. *)
Definition is_question_line `{Interpreter} (q : pystr) : bool :=
  match Py.strip q with
  | [] => false
  | c :: _ => Py.isdigit c && Py.contains (lit ". ") (Py.slice_to 10 (Py.strip q))
  end.

(** [[q.strip() for q in content.split("\n") if ...]] *)
Definition extract_questions `{Interpreter} (content : pystr) : list pystr :=
  map Py.strip (List.filter is_question_line (Py.split NL content)).


(** [f"questions:{hash(job_desc.title + job_desc.description)}"] *)
Definition cache_key `{Interpreter} (jd : JobDescription) : pystr :=
  lit "questions:" ++ Json.str_of_int (str_hash (title jd ++ description jd)).

Definition generate_messages (jd : JobDescription) : list message :=
  [ {| role := lit "system"; content := SYSTEM_PROMPT |};
    {| role := lit "user";
       content :=
         lit "Generate exactly 5 relevant interview questions for:" ++ [NL]
         ++ lit "            Job Title: " ++ title jd ++ [NL]
         ++ lit "            Job Description: " ++ description jd ++ [NL]
         ++ text_lines [
              "            ";
              "            Focus on both technical skills and soft skills. Make the questions specific to the role.";
              "            ";
              "            Format each question on a new line, numbered from 1-5." ]%string |} ].

Definition count_error : exn :=
  HTTPException 500 (Text (lit "Failed to generate the correct number of questions")).

(** The body of [generate_questions] (main.py, lines 118-167), run at instant
    [now] against the reply function [model]. *)
Definition generate_questions `{Interpreter} (now : Z) (model : chat_model)
    (interview_request : InterviewRequest) : py body :=
  try_except
    (let jd := job_desc interview_request in
     let key := cache_key jd in
     cached_questions ← redis_get now key;
     match cached_questions with
     | Some (c :: text) =>
         questions ← lift (py_eval (c :: text));
         mret (Questions questions)
     | _ =>
         response ← chat_completion model (generate_messages jd);
         let questions := extract_questions response in
         if bool_decide (length questions ≠ 5%nat)
         then raise count_error
         else
           redis_setex now key 3600 (Py.str_of_list questions);;
           mret (Questions questions)
     end)
    (λ e, raise (HTTPException 500 (StrOf e))).

(** [resp[key]] on a dict: [KeyError] when the key is absent. *)
Definition dict_item (resp : gmap pystr pystr) (key : pystr) : result pystr :=
  match resp !! key with
  | Some v => Ok v
  | None => Raised (KeyError key)
  end.

(** [f'Q: {resp["question"]}\nA: {resp["answer"]}\n'] *)
Definition render_answer (resp : gmap pystr pystr) : result pystr :=
  q ← dict_item resp (lit "question");
  a ← dict_item resp (lit "answer");
  mret (lit "Q: " ++ q ++ [NL] ++ lit "A: " ++ a ++ [NL]).

(** The list comprehension over [responses.answers], left to right. *)
Fixpoint render_answers (l : list (gmap pystr pystr)) : result (list pystr) :=
  match l with
  | [] => mret []
  | resp :: l' =>
      x ← render_answer resp;
      xs ← render_answers l';
      mret (x :: xs)
  end.

Definition analysis_header : pystr :=
  lit "Analyze these interview responses:" ++ [NL; NL].

Definition analysis_footer : pystr :=
  [NL; NL] ++ text_lines [
    "Provide comprehensive feedback including:";
    "1. Technical Depth (Score out of 10)";
    "2. Communication Clarity (Score out of 10)";
    "3. Overall Performance (Score out of 10)";
    "4. Strengths";
    "5. Areas for Improvement";
    "6. Specific Recommendations";
    "";
    "Format the response as JSON with these keys:";
    "technical_score, communication_score, overall_score, strengths, improvements, recommendations" ]%string.

Definition analyze_messages (rendered : list pystr) : list message :=
  [ {| role := lit "system"; content := SYSTEM_PROMPT |};
    {| role := lit "user";
       content := analysis_header ++ Py.join [NL] rendered ++ analysis_footer |} ].

Definition fence : pystr := lit "```".

(** Lines 206-208: drop the first line and what follows the last newline when
    the text starts with a fence. *)
Definition strip_fence (feedback : pystr) : result pystr :=
  if Py.startswith fence feedback then
    feedback1 ← getitem (Py.split1 NL feedback) 1;
    getitem (Py.rsplit1 NL feedback1) 0
  else mret feedback.

(** [json.loads (feedback)] *)
Definition json_loads (feedback : pystr) : result Json.value :=
  match Json.loads feedback with
  | Some v => Ok v
  | None => Raised JSONDecodeError
  end.

(** [feedback_json[key]]: only a dict can be indexed by a string. *)
Definition json_item (feedback_json : Json.value) (key : pystr) : result Json.value :=
  match feedback_json with
  | Json.Obj d =>
      match Json.dict_get key d with
      | Some v => Ok v
      | None => Raised (KeyError key)
      end
  | _ => Raised TypeError
  end.

(** [feedback_json[key] = v] *)
Definition json_set_item (feedback_json : Json.value) (key : pystr) (v : Json.value)
  : result Json.value :=
  match feedback_json with
  | Json.Obj d => Ok (Json.Obj (Json.dict_set key v d))
  | _ => Raised TypeError
  end.

Definition list_keys : list pystr :=
  [lit "strengths"; lit "improvements"; lit "recommendations"].

(** One turn of the loop of lines 214-216. *)
Definition normalize_key (feedback_json : Json.value) (key : pystr) : result Json.value :=
  v ← json_item feedback_json key;
  match v with
  | Json.Str s => json_set_item feedback_json key (Json.Arr [Json.Str s])
  | _ => mret feedback_json
  end.

Fixpoint normalize (keys : list pystr) (feedback_json : Json.value) : result Json.value :=
  match keys with
  | [] => mret feedback_json
  | key :: keys' =>
      feedback_json' ← normalize_key feedback_json key;
      normalize keys' feedback_json'
  end.

(** Lines 204-222: the inner [try] block. *)
Definition parse_feedback `{Interpreter} (feedback : pystr) : result body :=
  catch
    (feedback1 ← strip_fence feedback;
     feedback_json ← json_loads feedback1;
     feedback_json' ← normalize list_keys feedback_json;
     mret (Feedback (Json.dumps feedback_json')))
    (λ e, Raised (HTTPException 500 (StrOf e))).

(** The body of [analyze_responses] (main.py, lines 173-227). *)
Definition analyze_responses `{Interpreter} (model : chat_model)
    (responses : InterviewResponse) : py body :=
  try_except
    (rendered ← lift (render_answers (answers responses));
     feedback ← chat_completion model (analyze_messages rendered);
     lift (parse_feedback feedback))
    (λ e, raise (HTTPException 500 (StrOf e))).

(** ** The reachable worlds

    The cache starts empty and only the handlers write to it. *)
Inductive reachable `{Interpreter} : world → Prop :=
  | reach_init : reachable {| redis := ∅; log := [] |}
  | reach_generate now model req w :
      reachable w → model_valid model →
      reachable (generate_questions now model req w).2
  | reach_analyze model responses w :
      reachable w →
      reachable (analyze_responses model responses w).2.

(** Every cached value is what line 160 writes: [str] of five strings. *)
Definition cache_inv `{Interpreter} (c : redis_store) : Prop :=
  ∀ k v expires, c !! k = Some (v, expires) →
    ∃ qs, v = Py.str_of_list qs ∧ length qs = 5%nat ∧ Forall valid_str qs.

(** ** The rate limiter and the two routes *)

(** A fixed window per route and client: the instant it opened and the
    requests counted in it. *)
Abbreviation limiter_state := (gmap (pystr * pystr) (Z * nat)).

Definition limit_count : nat := 5.
Definition limit_window : Z := 60.

(** Modelled from the spec: the decorator [@limiter.limit("5/minute")] of
    lines 115 and 170 belongs to the slowapi package, which is not among the
    sources.  The spec describes a fixed-window counter per client address
    with five requests per minute, each route carrying its own decorator: a
    request is counted in the window open for its route and client, a new
    window opens with the first request after the old one ran out, and a
    request beyond the fifth of a window is turned away. *)
Definition limiter_hit (scope client : pystr) (now : Z) (lim : limiter_state)
  : bool * limiter_state :=
  match lim !! (scope, client) with
  | Some (opened, count) =>
      if (now <? opened + limit_window)%Z then
        if (count <? limit_count)%nat
        then (true, <[(scope, client) := (opened, S count)]> lim)
        else (false, lim)
      else (true, <[(scope, client) := (now, 1%nat)]> lim)
  | None => (true, <[(scope, client) := (now, 1%nat)]> lim)
  end.

Inductive response : Type :=
  | Http200 (b : body)
  | HttpError (status_code : Z) (d : detail)
  | RateLimited
  | HttpUnmodelled.

(** What the framework sends for the way the handler ended. *)
Definition respond (r : result body) : response :=
  match r with
  | Ok b => Http200 b
  | Raised (HTTPException status d) => HttpError status d
  | Raised e => HttpError 500 (StrOf e)
  | Unmodelled => HttpUnmodelled
  end.

Record server : Type := { srv_world : world; srv_limits : limiter_state }.

(** Modelled from the spec: the limit is checked before the handler runs, and
    a request over the limit is answered with 429 without running it. *)
Definition limited (scope client : pystr) (now : Z) (handler : py body)
    (srv : server) : response * server :=
  match limiter_hit scope client now (srv_limits srv) with
  | (true, lim') =>
      let '(r, w') := handler (srv_world srv) in
      (respond r, {| srv_world := w'; srv_limits := lim' |})
  | (false, lim') =>
      (RateLimited, {| srv_world := srv_world srv; srv_limits := lim' |})
  end.

(** [POST /generate-questions] from [client] at instant [now]. *)
Definition post_generate_questions `{Interpreter} (client : pystr) (now : Z)
    (model : chat_model) (req : InterviewRequest) : server → response * server :=
  limited (lit "generate_questions") client now (generate_questions now model req).

(** [POST /analyze-responses] from [client] at instant [now]. *)
Definition post_analyze_responses `{Interpreter} (client : pystr) (now : Z)
    (model : chat_model) (responses : InterviewResponse) : server → response * server :=
  limited (lit "analyze_responses") client now (analyze_responses model responses).

(** ** Notions the statements below use *)

(** The shape the specification gives for a question line,
    [^<digit>\. .+]: a digit, a period, a space, and at least one more
    character. *)
Definition spec_numbered_line `{Interpreter} (t : pystr) : bool :=
  match t with
  | d :: p :: sp :: _ :: _ => Py.isdigit d && (p =? ord ".") && (sp =? ord " ")
  | _ => false
  end.

(** The comprehension of lines 149-150 over lines that are already split. *)
Definition questions_of_lines `{Interpreter} (lines : list pystr) : list pystr :=
  map Py.strip (List.filter is_question_line lines).

Definition CR : N := 13.

(** The shape the comment of line 148 describes, within the ten characters
    line 150 looks at: a number of one to eight digits, a period, a space. *)
Definition numbered_line `{Interpreter} (t : pystr) : Prop :=
  ∃ digits rest,
    t = digits ++ lit ". " ++ rest ∧ digits ≠ [] ∧ (length digits ≤ 8)%nat
    ∧ Forall (λ c, Py.isdigit c = true) digits.

(** Lines 215-216 on one value: a string becomes a one-element list, any
    other value stays. *)
Definition wrap_string (x : Json.value) : Json.value :=
  match x with
  | Json.Str s => Json.Arr [Json.Str s]
  | _ => x
  end.

(** The first key line 179 looks up in [resp] and does not find: the
    f-string reads ["question"] before ["answer"]. *)
Definition first_missing (resp : gmap pystr pystr) (key : pystr) : Prop :=
  (resp !! lit "question" = None ∧ key = lit "question")
  ∨ (is_Some (resp !! lit "question") ∧ resp !! lit "answer" = None
     ∧ key = lit "answer").

(** The world after more calls were logged. *)
Definition logged (w : world) (evs : list event) : world :=
  {| redis := redis w; log := log w ++ evs |}.

(** Line 125 takes the model path: nothing live is cached under [key], or an
    empty text is. *)
Definition cache_miss (now : Z) (key : pystr) (store : redis_store) : Prop :=
  redis_lookup now key store = None ∨ redis_lookup now key store = Some [].

(** The instant [now] lies before the expiry of the entry stored under
    [key]. *)
Definition within_ttl (store : redis_store) (key : pystr) (now : Z) : Prop :=
  match store !! key with
  | Some (_, expires) => (now < expires)%Z
  | None => False
  end.

(** [f'Q: {q}\nA: {a}\n'] for a question and its answer. *)
Definition render_pair (p : pystr * pystr) : pystr :=
  lit "Q: " ++ p.1 ++ [NL] ++ lit "A: " ++ p.2 ++ [NL].

(** A dict that holds the question and the answer of [p]. *)
Definition holds_pair (resp : gmap pystr pystr) (p : pystr * pystr) : Prop :=
  resp !! lit "question" = Some p.1 ∧ resp !! lit "answer" = Some p.2.

(** The length of the given renderings, each followed by the newline that
    [join] puts after it. *)
Fixpoint joined_length (rs : list pystr) : nat :=
  match rs with
  | [] => 0
  | r :: rs' => S (length r) + joined_length rs'
  end.

(** Where the rendering of pair [i] starts inside the user prompt. *)
Definition pair_offset (pairs : list (pystr * pystr)) (i : nat) : nat :=
  length analysis_header + joined_length (map render_pair (take i pairs)).

(** A request to one of the two routes, with the reply function the chat
    model would follow while it is served. *)
Inductive request : Type :=
  | GenerateQuestions (model : chat_model) (req : InterviewRequest)
  | AnalyzeResponses (model : chat_model) (responses : InterviewResponse).

Definition route (rq : request) : pystr :=
  match rq with
  | GenerateQuestions _ _ => lit "generate_questions"
  | AnalyzeResponses _ _ => lit "analyze_responses"
  end.

Definition post `{Interpreter} (client : pystr) (now : Z) (rq : request)
  : server → response * server :=
  match rq with
  | GenerateQuestions model req => post_generate_questions client now model req
  | AnalyzeResponses model responses => post_analyze_responses client now model responses
  end.

(** The requests of one client served one after the other. *)
Fixpoint serve `{Interpreter} (client : pystr) (rqs : list (Z * request))
    (srv : server) : server :=
  match rqs with
  | [] => srv
  | (now, rq) :: rqs' => serve client rqs' (post client now rq srv).2
  end.

(** No window is open for the route and the client at instant [now]. *)
Definition window_closed (lim : limiter_state) (scope client : pystr) (now : Z) : Prop :=
  match lim !! (scope, client) with
  | Some (opened, _) => (opened + limit_window <= now)%Z
  | None => True
  end.

(** A request to route [scope] that arrives before the window opened at
    [opened] runs out. *)
Definition in_window (scope : pystr) (opened : Z) (trq : Z * request) : Prop :=
  route trq.2 = scope ∧ (trq.1 < opened + limit_window)%Z.

(** The schema the specification declares for a report. *)
Definition spec_score (x : option Json.value) : bool :=
  match x with
  | Some (Json.Int z) => (0 <=? z)%Z && (z <=? 10)%Z
  | _ => false
  end.

Definition spec_string_list (x : option Json.value) : bool :=
  match x with
  | Some (Json.Arr l) =>
      forallb (λ y, match y with Json.Str _ => true | _ => false end) l
  | _ => false
  end.

Definition spec_report (v : Json.value) : bool :=
  match v with
  | Json.Obj d =>
      spec_score (Json.dict_get (lit "technical_score") d)
      && spec_score (Json.dict_get (lit "communication_score") d)
      && spec_score (Json.dict_get (lit "overall_score") d)
      && spec_string_list (Json.dict_get (lit "strengths") d)
      && spec_string_list (Json.dict_get (lit "improvements") d)
      && spec_string_list (Json.dict_get (lit "recommendations") d)
  | _ => false
  end.

(** ** Notions the proofs use *)

Definition is_quote (q : N) : Prop := q = Py.squote ∨ q = Py.dquote.

Definition scanned_more (c : N) (rest : option (pystr * pystr)) : option (pystr * pystr) :=
  match rest with
  | Some (v, r) => Some (c :: v, r)
  | None => None
  end.

(** What the loops need of the scanner for nested values. *)
Definition consumes (rec : pystr → Json.scan Json.value) : Prop :=
  ∀ s v r, rec s = Json.Scanned v r → (length r < length s)%nat.

Definition fuelled (rec : pystr → Json.scan Json.value) (bound : nat) : Prop :=
  ∀ s, (length s < bound)%nat → rec s ≠ Json.NoFuel.

(** [rec2] gives what [rec1] gives wherever [rec1] had fuel enough. *)
Definition agrees (rec1 rec2 : pystr → Json.scan Json.value) : Prop :=
  ∀ s, rec1 s ≠ Json.NoFuel → rec2 s = rec1 s.

Definition backtick : N := 96.

(** What is left of [s] is [r], after a character that is not a backtick. *)
Definition closed_before (s r : pystr) : Prop :=
  ∃ c, (c :: r) `suffix_of` s ∧ c ≠ backtick.

(** [rec] leaves an end of the text it scans, after a character that is not a
    backtick. *)
Definition closes (rec : pystr → Json.scan Json.value) : Prop :=
  ∀ s v r, rec s = Json.Scanned v r → closed_before s r.

(** What is left of [s] is [r], after an ASCII digit. *)
Definition digit_before (s r : pystr) : Prop :=
  ∃ c, (c :: r) `suffix_of` s ∧ Py.ascii_isdigit c = true.

(** ** A concrete interpreter for the examples

    Its tables know no digit and no printable character beyond ASCII, and its
    hash is a fixed polynomial; the examples below use ASCII texts without
    floating-point numbers, on which every interpreter agrees up to the hash. *)
Definition ascii_interpreter : Interpreter :=
  {| str_hash := λ s, Z.of_N (fold_left (λ h c, (31 * h + c) mod 2 ^ 61) s 7);
     unicode_isdigit := λ _, false;
     unicode_isprintable := λ _, false;
     float_repr := λ s, s |}.


Definition empty_world : world := {| redis := ∅; log := [] |}.

Definition empty_server : server := {| srv_world := empty_world; srv_limits := ∅ |}.

Definition five_lines : pystr := text_lines
  ["Here are the questions:"; "1. What is REST?"; "2. Describe a hard bug.";
   "3. How do you test?"; "4. Explain caching."; "5. Why this role?"]%string.

Definition five_line_model : chat_model := λ _, Content five_lines.

Definition backend_request : InterviewRequest :=
  {| job_desc := {| title := lit "Backend Engineer";
                    description := lit "Build APIs in a distributed system." |} |}.

(** A reply that goes on numbering where an earlier list stopped. *)
Definition later_lines : pystr := text_lines
  ["Five more questions:"; "6. What is REST?"; "7. Describe a hard bug.";
   "8. How do you test?"; "9. Explain caching."; "10. Why this role?"]%string.


Definition split_ab_c : JobDescription := {| title := lit "ab"; description := lit "c" |}.
Definition split_a_bc : JobDescription := {| title := lit "a"; description := lit "bc" |}.

Definition dq : string := String (ascii_of_N 34) EmptyString.

(** A fenced reply whose strengths are a single string. *)
Definition good_json : pystr := lit
  ("{" ++ dq ++ "technical_score" ++ dq ++ ": 7, "
       ++ dq ++ "communication_score" ++ dq ++ ": 8, "
       ++ dq ++ "overall_score" ++ dq ++ ": 7, "
       ++ dq ++ "strengths" ++ dq ++ ": " ++ dq ++ "Clear answers" ++ dq ++ ", "
       ++ dq ++ "improvements" ++ dq ++ ": [" ++ dq ++ "More depth" ++ dq ++ "], "
       ++ dq ++ "recommendations" ++ dq ++ ": []}")%string.

Definition good_fenced : pystr := lit "```json" ++ [NL] ++ good_json ++ [NL] ++ lit "```".

Definition good_members : list (pystr * Json.value) :=
  [ (lit "technical_score", Json.Int 7);
    (lit "communication_score", Json.Int 8);
    (lit "overall_score", Json.Int 7);
    (lit "strengths", Json.Str (lit "Clear answers"));
    (lit "improvements", Json.Arr [Json.Str (lit "More depth")]);
    (lit "recommendations", Json.Arr []) ].

Definition two_answers : InterviewResponse :=
  {| answers :=
       [ <[lit "question" := lit "What is REST?"]> (<[lit "answer" := lit "An architectural style."]> ∅);
         <[lit "question" := lit "Why this role?"]> (<[lit "answer" := lit "I like APIs."]> ∅) ] |}.

Definition two_pairs : list (pystr * pystr) :=
  [ (lit "What is REST?", lit "An architectural style.");
    (lit "Why this role?", lit "I like APIs.") ].

(** The members the reply below decodes to. *)
Definition scoreless_members : list (pystr * Json.value) :=
  [ (lit "strengths", Json.Int 5);
    (lit "improvements", Json.Arr []);
    (lit "recommendations", Json.Arr []) ].

(** A reply without scores whose strengths are a number. *)
Definition scoreless_json : pystr := lit
  ("{" ++ dq ++ "strengths" ++ dq ++ ": 5, "
       ++ dq ++ "improvements" ++ dq ++ ": [], "
       ++ dq ++ "recommendations" ++ dq ++ ": []}")%string.

(** A reply whose scores are out of range, not integers, or not numbers. *)
Definition wild_json : pystr := lit
  ("{" ++ dq ++ "technical_score" ++ dq ++ ": 99, "
       ++ dq ++ "communication_score" ++ dq ++ ": " ++ dq ++ "high" ++ dq ++ ", "
       ++ dq ++ "overall_score" ++ dq ++ ": -3, "
       ++ dq ++ "strengths" ++ dq ++ ": [1, 2], "
       ++ dq ++ "improvements" ++ dq ++ ": null, "
       ++ dq ++ "recommendations" ++ dq ++ ": " ++ dq ++ "Practice" ++ dq ++ "}")%string.


(** What [json.dumps] writes for the reply above once it is normalized, and
    the members it holds. *)
Definition wild_report : pystr := lit
  ("{" ++ dq ++ "technical_score" ++ dq ++ ": 99, "
       ++ dq ++ "communication_score" ++ dq ++ ": " ++ dq ++ "high" ++ dq ++ ", "
       ++ dq ++ "overall_score" ++ dq ++ ": -3, "
       ++ dq ++ "strengths" ++ dq ++ ": [1, 2], "
       ++ dq ++ "improvements" ++ dq ++ ": null, "
       ++ dq ++ "recommendations" ++ dq ++ ": [" ++ dq ++ "Practice" ++ dq ++ "]}")%string.

Definition wild_members : list (pystr * Json.value) :=
  [ (lit "technical_score", Json.Int 99);
    (lit "communication_score", Json.Str (lit "high"));
    (lit "overall_score", Json.Int (-3));
    (lit "strengths", Json.Arr [Json.Int 1; Json.Int 2]);
    (lit "improvements", Json.Null);
    (lit "recommendations", Json.Arr [Json.Str (lit "Practice")]) ].

(** One client, and four requests that follow its first one within a minute. *)
Definition client_a : pystr := lit "203.0.113.7".

Definition a_request : request := GenerateQuestions five_line_model backend_request.

Definition four_more : list (Z * request) :=
  [ (10%Z, a_request); (20%Z, a_request); (30%Z, a_request); (40%Z, a_request) ].

(** A model whose API call raises. *)
Definition failing_model : chat_model := λ _, ApiError (lit "Rate limit reached").

Definition rest_answer : gmap pystr pystr :=
  <[lit "question" := lit "What is REST?"]>
    (<[lit "answer" := lit "An architectural style."]> ∅).

Definition question_only : gmap pystr pystr :=
  <[lit "question" := lit "Why this role?"]> ∅.

(** Two answers, the second of which holds no answer. *)
Definition missing_answer : InterviewResponse :=
  {| answers := [rest_answer; question_only] |}.

(** A model that ends its fenced reply with a line break. *)
Definition newline_fenced_model : chat_model := λ _, Content (good_fenced ++ [NL]).

(** A model that starts its fenced reply with a line break. *)
Definition space_fenced_model : chat_model := λ _, Content ([NL] ++ good_fenced).

(** Questions with both kinds of quotes, a backslash, a line break and a
    character beyond ASCII. *)
Definition quoted_questions : list pystr :=
  [ lit "1. What's REST?";
    lit ("2. Define " ++ dq ++ "idempotent" ++ dq ++ ".")%string;
    lit ("3. Is it " ++ dq ++ "it's" ++ dq ++ "?")%string;
    lit "4. Path " ++ [Py.backslash; NL; 233] ].

(** ** Facts about the Python built-ins *)

Section PyFacts.
Context `{Interpreter}.

Lemma hexval_hexdigit d : d < 16 → Py.hexval (Py.hexdigit d) = Some d.
Proof.
  intros Hd. destruct d as [|p]; [reflexivity|].
  do 4 (destruct p as [p|p|]; try reflexivity); lia.
Qed.

Lemma hexnum_snoc l : ∀ acc d,
  Py.hexnum acc (l ++ [d]) =
  match Py.hexnum acc l, Py.hexval d with
  | Some a, Some v => Some (16 * a + v)
  | _, _ => None
  end.
Proof.
  induction l as [|x l IH]; intros acc d; simpl.
  - destruct (Py.hexval d); reflexivity.
  - destruct (Py.hexval x); [apply IH | reflexivity].
Qed.

Lemma hexnum_hex_fixed k : ∀ n,
  n < 16 ^ N.of_nat k → Py.hexnum 0 (Py.hex_fixed k n) = Some n.
Proof.
  induction k as [|k IH]; intros n Hn.
  - simpl in *. f_equal. lia.
  - cbn [Py.hex_fixed]. rewrite hexnum_snoc.
    assert (Hpow : 16 ^ N.of_nat (S k) = 16 * 16 ^ N.of_nat k).
    { rewrite Nat2N.inj_succ, N.pow_succ_r'. reflexivity. }
    rewrite IH, hexval_hexdigit.
    + f_equal. pose proof (N.div_mod n 16). lia.
    + apply N.mod_lt. lia.
    + apply N.Div0.div_lt_upper_bound. lia.
Qed.

Lemma scan_literal_raw q c t :
  (c =? q) = false → (c =? Py.backslash) = false → Py.raw_ok c = true →
  Py.scan_literal q (c :: t) = scanned_more c (Py.scan_literal q t).
Proof. intros E1 E2 E3. cbn [Py.scan_literal]. rewrite E1, E2, E3. reflexivity. Qed.

Lemma scan_literal_quoted q e t :
  is_quote q → e = Py.backslash ∨ e = Py.squote ∨ e = Py.dquote →
  Py.scan_literal q (Py.backslash :: e :: t) = scanned_more e (Py.scan_literal q t).
Proof. intros [-> | ->] [-> | [-> | ->]]; reflexivity. Qed.

Lemma scan_literal_tnr q t :
  is_quote q →
  Py.scan_literal q (lit "\t" ++ t) = scanned_more 0x09 (Py.scan_literal q t) ∧
  Py.scan_literal q (lit "\n" ++ t) = scanned_more 0x0A (Py.scan_literal q t) ∧
  Py.scan_literal q (lit "\r" ++ t) = scanned_more 0x0D (Py.scan_literal q t).
Proof. intros [-> | ->]; repeat split; reflexivity. Qed.

Lemma scan_literal_x q n t :
  is_quote q → n < 16 ^ 2 →
  Py.scan_literal q (lit "\x" ++ Py.hex_fixed 2 n ++ t) = scanned_more n (Py.scan_literal q t).
Proof.
  intros Hq Hn.
  assert (Hd : ∃ a b, Py.hex_fixed 2 n = [a; b]) by (eexists _, _; reflexivity).
  destruct Hd as (a & b & E). pose proof (hexnum_hex_fixed 2 n Hn) as Hx.
  rewrite E in *.
  transitivity (match Py.hexnum 0 [a; b] with
                | Some m => scanned_more m (Py.scan_literal q t)
                | None => None
                end).
  - destruct Hq as [-> | ->]; reflexivity.
  - rewrite Hx. reflexivity.
Qed.

Lemma scan_literal_u q n t :
  is_quote q → n < 16 ^ 4 →
  Py.scan_literal q (lit "\u" ++ Py.hex_fixed 4 n ++ t) = scanned_more n (Py.scan_literal q t).
Proof.
  intros Hq Hn.
  assert (Hd : ∃ a b c d, Py.hex_fixed 4 n = [a; b; c; d])
    by (eexists _, _, _, _; reflexivity).
  destruct Hd as (a & b & c & d & E). pose proof (hexnum_hex_fixed 4 n Hn) as Hx.
  rewrite E in *.
  transitivity (match Py.hexnum 0 [a; b; c; d] with
                | Some m => scanned_more m (Py.scan_literal q t)
                | None => None
                end).
  - destruct Hq as [-> | ->]; reflexivity.
  - rewrite Hx. reflexivity.
Qed.

Lemma scan_literal_U q n t :
  is_quote q → n ≤ max_code_point →
  Py.scan_literal q (lit "\U" ++ Py.hex_fixed 8 n ++ t) = scanned_more n (Py.scan_literal q t).
Proof.
  intros Hq Hn.
  assert (Hd : ∃ a b c d e f g h, Py.hex_fixed 8 n = [a; b; c; d; e; f; g; h])
    by (eexists _, _, _, _, _, _, _, _; reflexivity).
  destruct Hd as (a & b & c & d & e & f & g & h & E).
  assert (Hx : Py.hexnum 0 (Py.hex_fixed 8 n) = Some n).
  { apply hexnum_hex_fixed. unfold max_code_point in Hn. simpl. lia. }
  rewrite E in *.
  transitivity (match Py.hexnum 0 [a; b; c; d; e; f; g; h] with
                | Some m => if m <=? max_code_point
                            then scanned_more m (Py.scan_literal q t) else None
                | None => None
                end).
  - destruct Hq as [-> | ->]; reflexivity.
  - rewrite Hx. destruct (N.leb_spec n max_code_point); [reflexivity | lia].
Qed.

Lemma scan_literal_repr q s rest :
  is_quote q → valid_str s →
  Py.scan_literal q (flat_map (Py.repr_char q) s ++ q :: rest) = Some (s, rest).
Proof.
  intros Hq Hs. induction Hs as [|c s Hc Hs IH].
  - simpl. rewrite N.eqb_refl. reflexivity.
  - cbn [flat_map]. rewrite <- app_assoc.
    set (t := flat_map (Py.repr_char q) s ++ q :: rest) in *.
    pose proof (scan_literal_tnr q t Hq) as (Ht & Hn & Hr).
    unfold Py.repr_char.
    destruct (N.eqb_spec c q) as [-> | Ncq]; cbn [orb].
    { cbn [app]. rewrite scan_literal_quoted, IH; [reflexivity | done |].
      destruct Hq as [-> | ->]; auto. }
    destruct (N.eqb_spec c Py.backslash) as [-> | Ncb]; cbn [orb].
    { cbn [app]. rewrite scan_literal_quoted, IH; [reflexivity | done | auto]. }
    destruct (N.eqb_spec c 9) as [-> | N9]; [rewrite Ht, IH; reflexivity|].
    destruct (N.eqb_spec c 10) as [-> | N10]; [rewrite Hn, IH; reflexivity|].
    destruct (N.eqb_spec c 13) as [-> | N13]; [rewrite Hr, IH; reflexivity|].
    destruct ((c <? 32) || (c =? 127)) eqn:Ectl.
    { rewrite <- app_assoc, scan_literal_x, IH; [reflexivity | done |].
      apply orb_true_iff in Ectl as [?%N.ltb_lt | ?%N.eqb_eq]; simpl; lia. }
    apply orb_false_iff in Ectl as [Ege%N.ltb_ge Hne%N.eqb_neq].
    assert (Hraw : Py.raw_ok c = true → Py.scan_literal q ([c] ++ t) = Some (c :: s, rest)).
    { intros Hb. cbn [app]. rewrite scan_literal_raw, IH; try reflexivity; try done.
      - apply N.eqb_neq; done.
      - apply N.eqb_neq; done. }
    destruct (N.ltb_spec c 127) as [Hlt | Hge].
    { apply Hraw. unfold Py.raw_ok.
      destruct (N.ltb_spec c 128); [|lia].
      apply andb_true_iff. split; [apply N.leb_le | apply N.ltb_lt]; lia. }
    destruct (unicode_isprintable c) eqn:Eprint.
    { apply Hraw. unfold Py.raw_ok.
      destruct (N.ltb_spec c 128); [lia | done]. }
    destruct (N.leb_spec c 255).
    { rewrite <- app_assoc, scan_literal_x, IH; [reflexivity | done | simpl; lia]. }
    destruct (N.leb_spec c 65535).
    { rewrite <- app_assoc, scan_literal_u, IH; [reflexivity | done | simpl; lia]. }
    rewrite <- app_assoc, scan_literal_U, IH; [reflexivity | done | done].
Qed.

Lemma repr_quote_is_quote s : is_quote (Py.repr_quote s).
Proof. unfold Py.repr_quote, is_quote. destruct (_ && _); auto. Qed.

Lemma parse_items_str fuel l :
  l ≠ [] → Forall valid_str l → (length l ≤ fuel)%nat →
  Py.parse_items fuel (Py.join (lit ", ") (map Py.repr l) ++ lit "]") = Some l.
Proof.
  revert l. induction fuel as [|fuel IH]; intros l Hne Hl Hlen.
  { destruct l; [done | simpl in Hlen; lia]. }
  destruct l as [|x l]; [done|]. inversion Hl as [|? ? Hx Hl']; subst.
  pose proof (repr_quote_is_quote x) as Hq.
  assert (Hhead : ∀ t, Py.parse_items (S fuel) (Py.repr x ++ t) =
            match t with
            | [c] => if c =? ord "]" then Some [x] else None
            | c1 :: c2 :: r =>
                if (c1 =? ord ",") && (c2 =? ord " ")
                then match Py.parse_items fuel r with
                     | Some l => Some (x :: l)
                     | None => None
                     end
                else None
            | _ => None
            end).
  { intros t. unfold Py.repr. cbn [app Py.parse_items].
    rewrite <- app_assoc. cbn [app].
    rewrite scan_literal_repr by done.
    destruct Hq as [-> | ->]; reflexivity. }
  destruct l as [|y l].
  - cbn [map Py.join]. rewrite Hhead. reflexivity.
  - change (Py.join (lit ", ") (map Py.repr (x :: y :: l)))
      with (Py.repr x ++ lit ", " ++ Py.join (lit ", ") (map Py.repr (y :: l))).
    rewrite <- !app_assoc, Hhead.
    change (lit ", " ++ ?t) with (ord "," :: ord " " :: t).
    change (ord "," =? ord ",") with true. change (ord " " =? ord " ") with true.
    cbn [andb]. rewrite IH; [reflexivity | done | done | simpl in *; lia].
Qed.

Lemma length_repr s : (2 ≤ length (Py.repr s))%nat.
Proof. unfold Py.repr. cbn [length]. rewrite length_app. simpl. lia. Qed.

Lemma length_join_repr l : (length l ≤ length (Py.join (lit ", ") (map Py.repr l)))%nat.
Proof.
  induction l as [|x [|y l] IH]; [done | |].
  - cbn [map Py.join length]. pose proof (length_repr x). lia.
  - change (Py.join (lit ", ") (map Py.repr (x :: y :: l)))
      with (Py.repr x ++ lit ", " ++ Py.join (lit ", ") (map Py.repr (y :: l))).
    rewrite !length_app. pose proof (length_repr x). cbn [length] in *. lia.
Qed.

Lemma eval_str_of_list l :
  Forall valid_str l → Py.eval (Py.str_of_list l) = Py.EvalList l.
Proof.
  intros Hl. destruct l as [|x l]; [reflexivity|].
  change (Py.str_of_list (x :: l))
    with (ord "[" :: (Py.join (lit ", ") (map Py.repr (x :: l)) ++ lit "]")).
  set (t := Py.join _ _ ++ _).
  unfold Py.eval. change (ord "[" =? ord "[") with true. cbv iota.
  assert (Ht : Py.parse_items (length t) t = Some (x :: l)).
  { apply parse_items_str; [done.. |]. subst t.
    rewrite length_app. pose proof (length_join_repr (x :: l)). lia. }
  rewrite Ht.
  destruct t as [|c [|c' t']] eqn:Et; try reflexivity.
  exfalso. subst t.
  pose proof (length_join_repr (x :: l)) as Hlen.
  apply (f_equal length) in Et. rewrite length_app in Et. simpl in *. lia.
Qed.
End PyFacts.
Section StringFacts.
Context `{Interpreter}.

Lemma Forall_lstrip (P : N → Prop) s : Forall P s → Forall P (Py.lstrip s).
Proof.
  induction 1 as [|c s Hc Hs IH]; simpl; [constructor|].
  destruct (Py.isspace c); [exact IH | by constructor].
Qed.

Lemma Forall_strip (P : N → Prop) s : Forall P s → Forall P (Py.strip s).
Proof.
  intros Hs. unfold Py.strip, Py.rstrip.
  apply Forall_rev, Forall_lstrip, Forall_rev, Forall_lstrip, Hs.
Qed.

Lemma Forall_split (P : N → Prop) sep s :
  Forall P s → Forall (Forall P) (Py.split sep s).
Proof.
  induction 1 as [|c s Hc Hs IH]; simpl; [by repeat constructor|].
  destruct (c =? sep); [by repeat constructor|].
  destruct (Py.split sep s) as [|l ls]; [by repeat constructor|].
  inversion IH; subst. by repeat constructor.
Qed.

Lemma extract_questions_valid content :
  valid_str content → Forall valid_str (extract_questions content).
Proof.
  intros Hc. unfold extract_questions.
  apply List.Forall_forall. intros q (line & <- & Hin)%in_map_iff.
  apply filter_In in Hin as [Hin _].
  apply Forall_strip.
  pose proof (Forall_split _ NL content Hc) as Hs.
  rewrite List.Forall_forall in Hs. by apply Hs.
Qed.

Lemma is_question_line_iff line :
  is_question_line line = true ↔
  ∃ c t, Py.strip line = c :: t ∧ Py.isdigit c = true
         ∧ Py.contains (lit ". ") (Py.slice_to 10 (Py.strip line)) = true.
Proof.
  unfold is_question_line. destruct (Py.strip line) as [|c t].
  - split; [done | by intros (? & ? & ? & _)].
  - rewrite andb_true_iff. split.
    + intros [? ?]. by exists c, t.
    + intros (? & ? & [= <- <-] & ? & ?). done.
Qed.

Lemma spec_numbered_line_accepted line :
  spec_numbered_line (Py.strip line) = true → is_question_line line = true.
Proof.
  intros Hs. apply is_question_line_iff.
  destruct (Py.strip line) as [|d [|p [|sp [|x t]]]]; try done.
  simpl in Hs. apply andb_true_iff in Hs as [[Hd Hp%N.eqb_eq]%andb_true_iff Hsp%N.eqb_eq].
  subst. exists d, (ord "." :: ord " " :: x :: t). repeat split; [done|].
  cbn [Py.slice_to firstn Py.contains]. 
  apply orb_true_iff. right. apply orb_true_iff. left. reflexivity.
Qed.

Lemma in_extract_questions content q :
  In q (extract_questions content) ↔
  ∃ line, In line (Py.split NL content) ∧ is_question_line line = true ∧ q = Py.strip line.
Proof.
  unfold extract_questions. rewrite in_map_iff. split.
  - intros (line & <- & [? ?]%filter_In). eauto.
  - intros (line & ? & ? & ->). exists line. split; [done|]. by apply filter_In.
Qed.
End StringFacts.

Section FilterFacts.
Context `{Interpreter}.

Lemma startswith_self p s : Py.startswith p (p ++ s) = true.
Proof. induction p as [|a p IH]; simpl; [done|]. by rewrite N.eqb_refl, IH. Qed.

Lemma contains_middle sub a b : Py.contains sub (a ++ sub ++ b) = true.
Proof.
  induction a as [|x a IH].
  - cbn [app]. destruct (sub ++ b) eqn:E; simpl; rewrite <- ?E, startswith_self; done.
  - cbn [app Py.contains]. rewrite IH. apply orb_true_r.
Qed.

Lemma numbered_line_accepted line :
  numbered_line (Py.strip line) → is_question_line line = true.
Proof.
  intros (digits & rest & Ht & Hne & Hlen & Hd).
  apply is_question_line_iff. rewrite Ht.
  destruct digits as [|d ds]; [done|]. inversion Hd as [|? ? Hd1 _]; subst.
  exists d, (ds ++ lit ". " ++ rest). repeat split; [done|].
  unfold Py.slice_to.
  change (firstn 10 ((d :: ds) ++ lit ". " ++ rest))
    with (take 10 ((d :: ds) ++ lit ". " ++ rest)).
  rewrite app_assoc, take_app_ge
    by (rewrite length_app; cbn [length lit map list_ascii_of_string] in *; lia).
  rewrite <- !app_assoc. apply contains_middle.
Qed.
End FilterFacts.
Section GenerateFacts.
Context `{Interpreter}.

Lemma generate_questions_hit now model req w c text :
  redis_lookup now (cache_key (job_desc req)) (redis w) = Some (c :: text) →
  generate_questions now model req w =
  (match Py.eval (c :: text) with
   | Py.EvalList l => Ok (Questions l)
   | Py.EvalOther => Unmodelled
   end, logged w [CacheGet (cache_key (job_desc req))]).
Proof.
  intros Hc. unfold generate_questions, try_except, mbind, py_bind, redis_get.
  rewrite Hc. unfold lift, py_eval.
  destruct (Py.eval (c :: text)); reflexivity.
Qed.

Lemma generate_questions_miss now model req w :
  cache_miss now (cache_key (job_desc req)) (redis w) →
  generate_questions now model req w =
  let key := cache_key (job_desc req) in
  let msgs := generate_messages (job_desc req) in
  match model msgs with
  | ApiError msg =>
      (Raised (HTTPException 500 (StrOf (OpenAIError msg))),
       logged w [CacheGet key; ModelCall msgs])
  | Content text =>
      let qs := extract_questions text in
      if bool_decide (length qs ≠ 5%nat)
      then (Raised (HTTPException 500 (StrOf count_error)),
            logged w [CacheGet key; ModelCall msgs])
      else (Ok (Questions qs),
            {| redis := <[key := (Py.str_of_list qs, (now + 3600)%Z)]> (redis w);
               log := log w ++ [CacheGet key; ModelCall msgs;
                                CacheSet key 3600 (Py.str_of_list qs)] |})
  end.
Proof.
  intros Hc. unfold generate_questions, try_except, mbind, py_bind, redis_get, logged.
  cbn zeta. unfold chat_completion.
  destruct Hc as [-> | ->];
    (destruct (model (generate_messages (job_desc req))) as [text | msg]; cbn;
     [destruct (bool_decide (length (extract_questions text) ≠ 5%nat)); cbn;
        rewrite <- ?app_assoc; reflexivity |]).
  - rewrite <- app_assoc. reflexivity.
  - rewrite <- app_assoc. reflexivity.
Qed.

Lemma cache_miss_or_hit now key store :
  cache_miss now key store ∨ ∃ c text, redis_lookup now key store = Some (c :: text).
Proof.
  unfold cache_miss. destruct (redis_lookup now key store) as [[|c text]|]; eauto.
Qed.

Lemma redis_lookup_Some now key store v :
  redis_lookup now key store = Some v →
  ∃ expires, store !! key = Some (v, expires) ∧ (now ≤ expires)%Z.
Proof.
  unfold redis_lookup. destruct (store !! key) as [[v' e]|]; [|done].
  destruct (Z.leb_spec now e); [|done]. intros [= ->]. eauto.
Qed.

Lemma within_ttl_lookup now key store :
  within_ttl store key now →
  ∃ v expires, store !! key = Some (v, expires) ∧ redis_lookup now key store = Some v.
Proof.
  unfold within_ttl, redis_lookup. destruct (store !! key) as [[v e]|]; [|done].
  intros Hlt. exists v, e. split; [done|].
  destruct (Z.leb_spec now e); [done | lia].
Qed.

(** The invariant of the cache is kept by both handlers. *)
Lemma cache_inv_empty : cache_inv ∅.
Proof. intros k v e Hk. by rewrite lookup_empty in Hk. Qed.

Lemma generate_questions_cache_inv now model req w :
  model_valid model → cache_inv (redis w) →
  cache_inv (redis (generate_questions now model req w).2).
Proof.
  intros Hm Hinv.
  destruct (cache_miss_or_hit now (cache_key (job_desc req)) (redis w))
    as [Hmiss | (c & text & Hhit)].
  - rewrite generate_questions_miss by done. cbn zeta.
    destruct (model _) as [text | msg] eqn:Em; [|done].
    case_bool_decide as Hlen; [done|]. cbn [snd redis].
    intros k v e. rewrite lookup_insert. case_decide as Hk.
    + intros [= <- <-]. exists (extract_questions text).
      repeat split; [lia |]. eapply extract_questions_valid, Hm, Em.
    + apply Hinv.
  - rewrite (generate_questions_hit _ _ _ _ _ _ Hhit). done.
Qed.

Lemma analyze_responses_redis model responses w :
  redis (analyze_responses model responses w).2 = redis w.
Proof.
  unfold analyze_responses, try_except, mbind, py_bind, lift, chat_completion, raise.
  destruct (render_answers (answers responses)); cbn; try done.
  destruct (model _); cbn; [|done].
  destruct (parse_feedback text); done.
Qed.

Lemma reachable_cache_inv w : reachable w → cache_inv (redis w).
Proof.
  induction 1 as [| now model req w _ IH Hm | model responses w _ IH].
  - apply cache_inv_empty.
  - by apply generate_questions_cache_inv.
  - by rewrite analyze_responses_redis.
Qed.

Lemma cached_value_evaluates now key store v :
  cache_inv store → redis_lookup now key store = Some v →
  ∃ qs, v = Py.str_of_list qs ∧ length qs = 5%nat ∧ Py.eval v = Py.EvalList qs.
Proof.
  intros Hinv (e & Hk & _)%redis_lookup_Some.
  destruct (Hinv _ _ _ Hk) as (qs & -> & Hlen & Hvalid).
  exists qs. repeat split; [done|]. by apply eval_str_of_list.
Qed.

Lemma str_of_list_cons l :
  Py.str_of_list l = ord "[" :: (Py.join (lit ", ") (map Py.repr l) ++ lit "]").
Proof. reflexivity. Qed.

(** A request whose key is live in the cache is answered from the cache
    alone, with what the entry evaluates to. *)
Lemma generate_questions_from_cache now model req w v expires qs :
  redis w !! cache_key (job_desc req) = Some (v, expires) → (now ≤ expires)%Z →
  v ≠ [] → Py.eval v = Py.EvalList qs →
  generate_questions now model req w =
  (Ok (Questions qs), logged w [CacheGet (cache_key (job_desc req))]).
Proof.
  intros Hk Hlt Hne Hev. destruct v as [|c text]; [done|].
  rewrite (generate_questions_hit now model req w c text).
  - by rewrite Hev.
  - unfold redis_lookup. rewrite Hk. destruct (Z.leb_spec now expires); [done | lia].
Qed.

(** What a successful run leaves under its key. *)
Lemma generate_questions_ok_entry now model req w qs w1 :
  model_valid model →
  generate_questions now model req w = (Ok (Questions qs), w1) →
  (cache_miss now (cache_key (job_desc req)) (redis w) ∧
   w1 = {| redis := <[cache_key (job_desc req) :=
                        (Py.str_of_list qs, (now + 3600)%Z)]> (redis w);
           log := log w ++ [CacheGet (cache_key (job_desc req));
                            ModelCall (generate_messages (job_desc req));
                            CacheSet (cache_key (job_desc req)) 3600 (Py.str_of_list qs)] |} ∧
   Forall valid_str qs)
  ∨ (∃ c text, redis_lookup now (cache_key (job_desc req)) (redis w) = Some (c :: text) ∧
       Py.eval (c :: text) = Py.EvalList qs ∧
       w1 = logged w [CacheGet (cache_key (job_desc req))]).
Proof.
  intros Hm Hrun.
  destruct (cache_miss_or_hit now (cache_key (job_desc req)) (redis w))
    as [Hmiss | (c & text & Hhit)].
  - left. rewrite generate_questions_miss in Hrun by done. cbn zeta in Hrun.
    destruct (model _) as [text | msg] eqn:Em; [|done].
    case_bool_decide; [done|]. injection Hrun as <- <-.
    repeat split; [done |]. eapply extract_questions_valid, Hm, Em.
  - right. exists c, text. rewrite (generate_questions_hit _ _ _ _ _ _ Hhit) in Hrun.
    destruct (Py.eval (c :: text)) as [l|]; [|done]. injection Hrun as <- <-. done.
Qed.

(** After a successful run, a request with the same key that arrives while
    the entry is live gets the same questions from the cache. *)
Lemma generate_questions_repeat now1 now2 model1 model2 req1 req2 w w1 qs :
  model_valid model1 →
  cache_key (job_desc req2) = cache_key (job_desc req1) →
  generate_questions now1 model1 req1 w = (Ok (Questions qs), w1) →
  within_ttl (redis w1) (cache_key (job_desc req1)) now2 →
  generate_questions now2 model2 req2 w1 =
    (Ok (Questions qs), logged w1 [CacheGet (cache_key (job_desc req2))])
  ∧ ∃ v expires, redis w1 !! cache_key (job_desc req1) = Some (v, expires)
                 ∧ Py.eval v = Py.EvalList qs.
Proof.
  intros Hm Hkey Hrun Httl. unfold within_ttl in Httl.
  destruct (generate_questions_ok_entry _ _ _ _ _ _ Hm Hrun)
    as [(Hmiss & -> & Hvalid) | (c & text & Hhit & Hev & ->)].
  - cbn [redis] in *. rewrite lookup_insert_eq in Httl.
    split.
    + eapply generate_questions_from_cache.
      * rewrite Hkey. cbn [redis]. apply lookup_insert_eq.
      * lia.
      * by rewrite str_of_list_cons.
      * by apply eval_str_of_list.
    + eexists _, _. split; [apply lookup_insert_eq | by apply eval_str_of_list].
  - cbn [redis logged] in *.
    apply redis_lookup_Some in Hhit as (e & Hk & _). rewrite Hk in Httl.
    split.
    + eapply generate_questions_from_cache; [by rewrite Hkey | lia | done | done].
    + eauto.
Qed.
End GenerateFacts.
Section JsonFacts.

Lemma dict_get_set_eq k v d : Json.dict_get k (Json.dict_set k v d) = Some v.
Proof.
  induction d as [|[k' v'] d IH]; simpl; unfold Json.str_eqb.
  - by rewrite bool_decide_eq_true_2.
  - case_bool_decide as Hk; simpl; unfold Json.str_eqb.
    + by rewrite bool_decide_eq_true_2.
    + by rewrite bool_decide_eq_false_2.
Qed.

Lemma dict_get_set_ne k k' v d :
  k ≠ k' → Json.dict_get k' (Json.dict_set k v d) = Json.dict_get k' d.
Proof.
  intros Hne. induction d as [|[k0 v0] d IH]; simpl; unfold Json.str_eqb.
  - by rewrite bool_decide_eq_false_2.
  - case_bool_decide as Hk; simpl; unfold Json.str_eqb.
    + subst k0. by rewrite !(bool_decide_eq_false_2 (k' = k)).
    + by rewrite IH.
Qed.

Lemma dict_get_set k k' v d :
  Json.dict_get k' (Json.dict_set k v d) =
  if decide (k = k') then Some v else Json.dict_get k' d.
Proof.
  case_decide as Hk; [subst; apply dict_get_set_eq | by apply dict_get_set_ne].
Qed.

Lemma dict_set_keys k v d :
  is_Some (Json.dict_get k d) → map fst (Json.dict_set k v d) = map fst d.
Proof.
  induction d as [|[k0 v0] d IH]; simpl; unfold Json.str_eqb.
  - by intros [? ?].
  - case_bool_decide as Hk; simpl; [by subst | intros Hs; by rewrite IH].
Qed.

Lemma dict_set_same k v d : Json.dict_get k d = Some v → Json.dict_set k v d = d.
Proof.
  induction d as [|[k0 v0] d IH]; simpl; unfold Json.str_eqb; [done|].
  case_bool_decide as Hk; [by intros [= ->]; subst | intros Hs; by rewrite IH].
Qed.

(** A text that json.loads accepts does not start with a code fence. *)
Lemma loads_not_fenced text v :
  Json.loads text = Some v → Py.startswith fence text = false.
Proof.
  intros Hl. destruct (Py.startswith fence text) eqn:Hf; [|done].
  destruct text as [|c text]; [done|].
  change (Py.startswith fence (c :: text))
    with ((96 =? c) && Py.startswith (lit "``") text) in Hf.
  apply andb_true_iff in Hf as [<-%N.eqb_eq _].
  exfalso. revert Hl. unfold Json.loads.
  change (Py.startswith [65279] (96 :: text)) with false. cbv iota.
  change (Json.skip_ws (96 :: text)) with (96 :: text).
  cbn [Json.scan_once]. 
  change (Json.scan_value (Json.scan_once (length (96 :: text))) (96 :: text))
    with (@Json.Invalid Json.value). done.
Qed.
End JsonFacts.
Section SplitFacts.

Lemma startswith_app p s t : Py.startswith p s = true → Py.startswith p (s ++ t) = true.
Proof.
  revert s. induction p as [|a p IH]; intros [|b s]; simpl; try done.
  intros [-> ?]%andb_true_iff. by rewrite IH.
Qed.

Lemma split1_first sep a b : ¬ In sep a → Py.split1 sep (a ++ sep :: b) = [a; b].
Proof.
  induction a as [|c a IH]; intros Hn; simpl.
  - by rewrite N.eqb_refl.
  - destruct (N.eqb_spec c sep) as [-> | _]; [exfalso; apply Hn; simpl; auto|].
    rewrite IH; [done|]. intros ?. apply Hn. simpl. auto.
Qed.

Lemma split1_none sep a : ¬ In sep a → Py.split1 sep a = [a].
Proof.
  induction a as [|c a IH]; intros Hn; simpl; [done|].
  destruct (N.eqb_spec c sep) as [-> | _]; [exfalso; apply Hn; simpl; auto|].
  rewrite IH; [done|]. intros ?. apply Hn. simpl. auto.
Qed.

Lemma rsplit1_last sep a b : ¬ In sep b → Py.rsplit1 sep (a ++ sep :: b) = [a; b].
Proof.
  intros Hn. unfold Py.rsplit1.
  rewrite rev_app_distr. cbn [rev]. rewrite <- app_assoc. cbn [app].
  rewrite split1_first by (by rewrite <- in_rev).
  by rewrite !rev_involutive.
Qed.

Lemma split_nonempty sep s : Py.split sep s ≠ [].
Proof.
  destruct s as [|c s]; simpl; [done|]. destruct (c =? sep); [done|].
  by destruct (Py.split sep s).
Qed.

Lemma split_app sep a b :
  Py.split sep (a ++ sep :: b) = Py.split sep a ++ Py.split sep b.
Proof.
  induction a as [|c a IH]; simpl.
  - by rewrite N.eqb_refl.
  - destruct (c =? sep); [by rewrite IH|].
    rewrite IH. pose proof (split_nonempty sep a).
    by destruct (Py.split sep a).
Qed.

Lemma split_none sep a : ¬ In sep a → Py.split sep a = [a].
Proof.
  induction a as [|c a IH]; intros Hn; simpl; [done|].
  destruct (N.eqb_spec c sep) as [-> | _]; [exfalso; apply Hn; simpl; auto|].
  rewrite IH; [done|]. intros ?. apply Hn. simpl. auto.
Qed.

Lemma join_split sep s : Py.join [sep] (Py.split sep s) = s.
Proof.
  induction s as [|c s IH]; simpl; [done|].
  pose proof (split_nonempty sep s) as Hne.
  destruct (c =? sep) eqn:Ec.
  - apply N.eqb_eq in Ec as ->.
    destruct (Py.split sep s) as [|l ls]; [done|].
    change (Py.join [sep] ([] :: l :: ls)) with (sep :: Py.join [sep] (l :: ls)).
    by rewrite IH.
  - destruct (Py.split sep s) as [|l ls]; [done|].
    destruct ls; simpl in *; by rewrite <- IH.
Qed.

(** The lines of a fenced text, and what is left of them without the first
    and the last one. *)
Lemma fenced_lines first_line text last_line :
  ¬ In NL first_line → ¬ In NL last_line →
  Py.split NL (first_line ++ [NL] ++ text ++ [NL] ++ last_line)
  = first_line :: Py.split NL text ++ [last_line].
Proof.
  intros H1 H2. cbn [app]. rewrite split_app, split_app.
  by rewrite (split_none NL last_line H2), (split_none NL first_line H1).
Qed.

Lemma strip_fence_fenced first_line text last_line :
  Py.startswith fence first_line = true →
  ¬ In NL first_line → ¬ In NL last_line →
  strip_fence (first_line ++ [NL] ++ text ++ [NL] ++ last_line) = Ok text.
Proof.
  intros Hf H1 H2. unfold strip_fence.
  rewrite startswith_app by done. cbn [app].
  rewrite split1_first by done. cbn. 
  rewrite rsplit1_last by done. done.
Qed.
End SplitFacts.
Section AnalyzeFacts.
Context `{Interpreter}.

Lemma wrap_string_idem x : wrap_string (wrap_string x) = wrap_string x.
Proof. by destruct x. Qed.

Lemma normalize_key_obj d key :
  normalize_key (Json.Obj d) key =
  match Json.dict_get key d with
  | Some x => Ok (Json.Obj (Json.dict_set key (wrap_string x) d))
  | None => Raised (KeyError key)
  end.
Proof.
  unfold normalize_key, json_item, mbind, result_bind.
  destruct (Json.dict_get key d) as [x|] eqn:Hk; [|done].
  destruct x; cbn; first [reflexivity | by rewrite dict_set_same].
Qed.

Lemma normalize_not_obj keys v :
  keys ≠ [] → (∀ d, v ≠ Json.Obj d) → normalize keys v = Raised TypeError.
Proof. destruct keys as [|k keys]; [done|]. intros _ Hv. by destruct v; try done; destruct (Hv members). Qed.

Lemma normalize_obj keys : ∀ d,
  (∀ k, k ∈ keys → is_Some (Json.dict_get k d)) →
  ∃ d', normalize keys (Json.Obj d) = Ok (Json.Obj d')
        ∧ map fst d' = map fst d
        ∧ ∀ k, Json.dict_get k d' =
               if bool_decide (k ∈ keys) then wrap_string <$> Json.dict_get k d
               else Json.dict_get k d.
Proof.
  induction keys as [|key keys IH]; intros d Hall.
  - exists d. split; [done | split; [done|]]. intros k.
    rewrite bool_decide_eq_false_2; [done | apply not_elem_of_nil].
  - destruct (Hall key) as [x Hx]; [by left|].
    cbn [normalize]. unfold mbind, result_bind. rewrite normalize_key_obj, Hx.
    destruct (IH (Json.dict_set key (wrap_string x) d)) as (d' & Hn & Hkeys & Hget).
    { intros k Hk. rewrite dict_get_set. case_decide; [done | apply Hall; by right]. }
    exists d'. split; [done|]. split.
    { rewrite Hkeys. apply dict_set_keys. by rewrite Hx. }
    intros k. rewrite Hget, dict_get_set.
    destruct (decide (key = k)) as [-> | Hne].
    + rewrite (bool_decide_eq_true_2 (k ∈ k :: keys)) by (by left).
      rewrite Hx. cbn. case_bool_decide; [by rewrite wrap_string_idem | done].
    + case_bool_decide as Hin.
      * rewrite bool_decide_eq_true_2; [done | by right].
      * rewrite bool_decide_eq_false_2; [done|].
        intros [?|?]%elem_of_cons; congruence.
Qed.

Lemma normalize_missing keys : ∀ d,
  (∃ k, k ∈ keys ∧ Json.dict_get k d = None) →
  ∃ k, k ∈ keys ∧ normalize keys (Json.Obj d) = Raised (KeyError k).
Proof.
  induction keys as [|key keys IH]; intros d (k & Hin & Hk).
  { by apply elem_of_nil in Hin. }
  cbn [normalize]. unfold mbind, result_bind. rewrite normalize_key_obj.
  destruct (Json.dict_get key d) as [x|] eqn:Hx.
  - destruct (IH (Json.dict_set key (wrap_string x) d)) as (k' & Hin' & Hk').
    { exists k. apply elem_of_cons in Hin as [-> | Hin]; [congruence|]. split; [done|].
      rewrite dict_get_set. case_decide; [congruence | done]. }
    exists k'. split; [by right | done].
  - exists key. split; [by left | done].
Qed.

(** The inner [try] block, outcome by outcome. *)
Lemma parse_feedback_run feedback :
  parse_feedback feedback =
  match strip_fence feedback with
  | Ok text =>
      match Json.loads text with
      | Some v =>
          match normalize list_keys v with
          | Ok v' => Ok (Feedback (Json.dumps v'))
          | Raised e => Raised (HTTPException 500 (StrOf e))
          | Unmodelled => Unmodelled
          end
      | None => Raised (HTTPException 500 (StrOf JSONDecodeError))
      end
  | Raised e => Raised (HTTPException 500 (StrOf e))
  | Unmodelled => Unmodelled
  end.
Proof.
  unfold parse_feedback, catch, mbind, result_bind, json_loads.
  destruct (strip_fence feedback) as [text| |]; try done.
  destruct (Json.loads text) as [v|]; [|done].
  by destruct (normalize list_keys v).
Qed.

Lemma analyze_responses_run model responses w :
  analyze_responses model responses w =
  match render_answers (answers responses) with
  | Ok rendered =>
      (match model (analyze_messages rendered) with
       | Content feedback =>
           match parse_feedback feedback with
           | Ok b => Ok b
           | Raised e => Raised (HTTPException 500 (StrOf e))
           | Unmodelled => Unmodelled
           end
       | ApiError msg => Raised (HTTPException 500 (StrOf (OpenAIError msg)))
       end,
       logged w [ModelCall (analyze_messages rendered)])
  | Raised e => (Raised (HTTPException 500 (StrOf e)), w)
  | Unmodelled => (Unmodelled, w)
  end.
Proof.
  unfold analyze_responses, try_except, mbind, py_bind, lift, chat_completion, raise, logged.
  destruct (render_answers (answers responses)) as [rendered| |]; try done.
  destruct (model (analyze_messages rendered)) as [feedback | msg]; [|done].
  by destruct (parse_feedback feedback).
Qed.

Lemma strip_fence_modelled feedback : strip_fence feedback ≠ Unmodelled.
Proof.
  unfold strip_fence, mbind, result_bind, getitem.
  destruct (Py.startswith fence feedback); [|done].
  destruct (Py.split1 NL feedback !! 1%nat); [|done].
  by destruct (Py.rsplit1 NL _ !! 0%nat).
Qed.

Lemma normalize_modelled keys : ∀ v, normalize keys v ≠ Unmodelled.
Proof.
  induction keys as [|key keys IH]; intros v; [done|].
  cbn [normalize]. unfold mbind, result_bind.
  destruct (normalize_key v key) as [v'| |] eqn:Hk; [apply IH | done |].
  unfold normalize_key, json_item, json_set_item, mbind, result_bind in Hk.
  destruct v; try done. destruct (Json.dict_get key members) as [[]|]; done.
Qed.

Lemma render_answers_holds answers0 pairs :
  Forall2 holds_pair answers0 pairs →
  render_answers answers0 = Ok (map render_pair pairs).
Proof.
  induction 1 as [|resp p answers0 pairs [Hq Ha] _ IH]; [done|].
  cbn [render_answers]. unfold mbind, result_bind, render_answer, dict_item.
  rewrite Hq, Ha, IH. done.
Qed.
End AnalyzeFacts.

Section AnalyzeOutcomes.
Context `{Interpreter}.

Lemma keys_present_or_missing (keys : list pystr) d :
  (∀ k, k ∈ keys → is_Some (Json.dict_get k d))
  ∨ (∃ k, k ∈ keys ∧ Json.dict_get k d = None).
Proof.
  induction keys as [|key keys [IH | (k & Hk & Hnone)]].
  - left. intros k Hk. by apply elem_of_nil in Hk.
  - destruct (Json.dict_get key d) as [x|] eqn:Hx.
    + left. intros k [-> | Hk]%elem_of_cons; [by rewrite Hx | by apply IH].
    + right. exists key. split; [by left | done].
  - right. exists k. split; [by right | done].
Qed.

Lemma render_answers_modelled l : render_answers l ≠ Unmodelled.
Proof.
  induction l as [|resp l IH]; [done|].
  cbn [render_answers]. unfold mbind, result_bind, render_answer, dict_item.
  destruct (resp !! lit "question"); [|done].
  destruct (resp !! lit "answer"); [|done].
  by destruct (render_answers l).
Qed.

Lemma parse_feedback_outcome feedback :
  match parse_feedback feedback with
  | Ok (Feedback _) => True
  | Raised (HTTPException status _) => status = 500%Z
  | _ => False
  end.
Proof.
  rewrite parse_feedback_run.
  pose proof (strip_fence_modelled feedback).
  destruct (strip_fence feedback) as [text| |]; [|done..].
  destruct (Json.loads text) as [v|]; [|done].
  pose proof (normalize_modelled list_keys v).
  by destruct (normalize list_keys v).
Qed.

Lemma analyze_responses_outcome model responses w :
  match respond (analyze_responses model responses w).1 with
  | Http200 (Feedback _) => True
  | HttpError status _ => status = 500%Z
  | _ => False
  end.
Proof.
  rewrite analyze_responses_run.
  pose proof (render_answers_modelled (answers responses)).
  destruct (render_answers (answers responses)) as [rendered| |]; [|done..].
  cbn [fst]. destruct (model (analyze_messages rendered)) as [feedback | msg]; [|done].
  pose proof (parse_feedback_outcome feedback).
  by destruct (parse_feedback feedback) as [[]|[]|].
Qed.
End AnalyzeOutcomes.

Section PromptFacts.

Lemma join_cons sep x y l :
  Py.join sep (x :: y :: l) = x ++ sep ++ Py.join sep (y :: l).
Proof. reflexivity. Qed.

Lemma join_rendering_at (rs : list pystr) : ∀ i r rest,
  rs !! i = Some r →
  take (length r) (drop (joined_length (take i rs)) (Py.join [NL] rs ++ rest)) = r.
Proof.
  induction rs as [|r0 rs IH]; intros i r rest Hi; [done|].
  destruct i as [|i].
  - injection Hi as ->. cbn [take joined_length]. rewrite drop_0.
    destruct rs as [|r1 rs].
    + cbn [Py.join]. by rewrite take_app_length.
    + rewrite join_cons, <- !app_assoc. by rewrite take_app_length.
  - cbn [lookup list_lookup] in Hi.
    destruct rs as [|r1 rs]; [done|].
    rewrite join_cons, <- !app_assoc.
    cbn [take joined_length]. cbn [app].
    change (S (length r0) + ?n)%nat with (S (length r0 + n)).
    rewrite <- Nat.add_succ_r, <- drop_drop, drop_app_length.
    change (drop (S ?n) (NL :: ?l)) with (drop n l). by apply IH.
Qed.

Lemma joined_length_snoc rs r :
  joined_length (rs ++ [r]) = (joined_length rs + length r + 1)%nat.
Proof. induction rs as [|x rs IH]; simpl; [lia | rewrite IH; lia]. Qed.
End PromptFacts.


Section LimiterFacts.
Context `{Interpreter}.

Lemma respond_not_limited r : respond r ≠ RateLimited.
Proof. by destruct r as [b|[]|]. Qed.

Lemma post_limited client now rq srv :
  post client now rq srv =
  limited (route rq) client now
    (match rq with
     | GenerateQuestions model req => generate_questions now model req
     | AnalyzeResponses model responses => analyze_responses model responses
     end) srv.
Proof. by destruct rq. Qed.

(** A request that finds its window open with [n] requests counted. *)
Lemma post_in_window client scope opened n now rq srv :
  srv_limits srv !! (scope, client) = Some (opened, n) →
  in_window scope opened (now, rq) →
  let out := post client now rq srv in
  (out.1 = RateLimited ↔ (limit_count ≤ n)%nat)
  ∧ ((limit_count ≤ n)%nat → out.2 = srv)
  ∧ srv_limits out.2 !! (scope, client)
    = Some (opened, if (n <? limit_count)%nat then S n else n).
Proof.
  intros Hl [Hroute Ht]. cbn [fst snd] in *. cbn zeta.
  rewrite post_limited, Hroute. unfold limited, limiter_hit. rewrite Hl.
  destruct (Z.ltb_spec now (opened + limit_window)) as [_|]; [|lia].
  destruct (Nat.ltb_spec n limit_count) as [Hn | Hn].
  - match goal with |- context [(?h (srv_world srv))] => destruct (h (srv_world srv)) as [r w'] end.
    cbn [fst snd srv_limits]. repeat split.
    + intros Hr. by apply respond_not_limited in Hr.
    + lia.
    + lia.
    + apply lookup_insert_eq.
  - cbn [fst snd]. repeat split; try done. by destruct srv.
Qed.

(** The first request after the window ran out opens a new one. *)
Lemma post_opens_window client scope now rq srv :
  window_closed (srv_limits srv) scope client now →
  route rq = scope →
  let out := post client now rq srv in
  out.1 ≠ RateLimited ∧ srv_limits out.2 !! (scope, client) = Some (now, 1%nat).
Proof.
  intros Hc Hroute. cbn zeta. unfold window_closed in Hc.
  rewrite post_limited, Hroute. unfold limited, limiter_hit.
  match goal with |- context [(?h (srv_world srv))] => destruct (h (srv_world srv)) as [r w'] end.
  destruct (srv_limits srv !! (scope, client)) as [[opened n]|].
  - destruct (Z.ltb_spec now (opened + limit_window)); [lia|].
    cbn [fst snd srv_limits]. split; [apply respond_not_limited | apply lookup_insert_eq].
  - cbn [fst snd srv_limits]. split; [apply respond_not_limited | apply lookup_insert_eq].
Qed.

Lemma serve_in_window client scope opened rqs : ∀ srv n,
  srv_limits srv !! (scope, client) = Some (opened, n) →
  Forall (in_window scope opened) rqs →
  srv_limits (serve client rqs srv) !! (scope, client)
  = Some (opened, if (n + length rqs <? limit_count)%nat
                  then (n + length rqs)%nat
                  else Nat.max n limit_count).
Proof.
  induction rqs as [|[now rq] rqs IH]; intros srv n Hl Hall.
  - cbn [serve length]. rewrite Hl, Nat.add_0_r.
    destruct (Nat.ltb_spec n limit_count); do 2 f_equal; lia.
  - inversion Hall as [|? ? Hin Hall']; subst.
    destruct (post_in_window client scope opened n now rq srv Hl Hin) as (_ & _ & Hl').
    cbn [serve]. rewrite (IH _ _ Hl' Hall'). cbn [length].
    unfold limit_count in *.
    destruct (Nat.ltb_spec n 5);
      repeat match goal with |- context [(?a <? ?b)%nat] =>
               destruct (Nat.ltb_spec a b) end; do 2 f_equal; lia.
Qed.
End LimiterFacts.


Section FenceLines.

Lemma split_no_sep sep s : Forall (λ l, ¬ In sep l) (Py.split sep s).
Proof.
  induction s as [|c s IH]; simpl.
  { constructor; [by intros [] | constructor]. }
  destruct (N.eqb_spec c sep) as [-> | Hne].
  - constructor; [by intros [] | done].
  - destruct (Py.split sep s) as [|l ls].
    { constructor; [|constructor]. intros [? | []]. congruence. }
    inversion IH as [|? ? Hl Hls]; subst. constructor; [|done].
    intros [? | ?]; [congruence | done].
Qed.

Lemma join_snoc sep ls l :
  ls ≠ [] → Py.join [sep] (ls ++ [l]) = Py.join [sep] ls ++ sep :: l.
Proof.
  induction ls as [|x [|y ls] IH]; intros Hne; [done | done |].
  change (Py.join [sep] ((x :: y :: ls) ++ [l]))
    with (x ++ [sep] ++ Py.join [sep] ((y :: ls) ++ [l])).
  rewrite IH by done.
  change (Py.join [sep] (x :: y :: ls)) with (x ++ [sep] ++ Py.join [sep] (y :: ls)).
  by rewrite <- !app_assoc.
Qed.

Lemma startswith_prefix p a c b :
  ¬ In c p → Py.startswith p (a ++ c :: b) = true → Py.startswith p a = true.
Proof.
  revert a. induction p as [|x p IH]; intros a Hc Hp; [done|].
  destruct a as [|y a]; simpl in *.
  - apply andb_true_iff in Hp as [->%N.eqb_eq _]. exfalso. apply Hc. by left.
  - apply andb_true_iff in Hp as [-> Hp]. simpl. apply (IH a); [|done].
    intros ?. apply Hc. by right.
Qed.

(** A fenced text of at least three lines is left with its lines between the
    first and the last one. *)
Lemma strip_fence_lines text :
  Py.startswith fence text = true → (3 ≤ length (Py.split NL text))%nat →
  strip_fence text = Ok (Py.join [NL] (removelast (tail (Py.split NL text)))).
Proof.
  intros Hf Hlen.
  pose proof (join_split NL text) as Hj. pose proof (split_no_sep NL text) as Hn.
  destruct (Py.split NL text) as [|l1 rest]; [simpl in Hlen; lia|].
  destruct (exists_last (l := rest)) as (mid & ln & ->);
    [destruct rest; [simpl in Hlen; lia | done]|].
  assert (Hmid : mid ≠ []).
  { destruct mid; [simpl in Hlen; lia | done]. }
  cbn [tail]. rewrite removelast_last.
  apply Forall_cons in Hn as [H1 Hn]. apply Forall_app in Hn as [_ Hln].
  rewrite Forall_singleton in Hln.
  assert (Htext : text = l1 ++ [NL] ++ Py.join [NL] mid ++ [NL] ++ ln).
  { rewrite <- Hj. destruct mid as [|m mid]; [done|].
    change (Py.join [NL] (l1 :: (m :: mid) ++ [ln]))
      with (l1 ++ [NL] ++ Py.join [NL] ((m :: mid) ++ [ln])).
    by rewrite join_snoc. }
  rewrite Htext. apply strip_fence_fenced; [|done..].
  rewrite Htext in Hf. eapply (startswith_prefix fence l1 NL); [|exact Hf].
  vm_compute. intuition discriminate.
Qed.

(** With two lines only the first one goes; with one line the index is out of
    range. *)
Lemma strip_fence_two_lines first_line second_line :
  Py.startswith fence first_line = true →
  ¬ In NL first_line → ¬ In NL second_line →
  strip_fence (first_line ++ [NL] ++ second_line) = Ok second_line.
Proof.
  intros Hf H1 H2. unfold strip_fence. rewrite startswith_app by done.
  cbn [app]. rewrite split1_first by done. cbn.
  unfold Py.rsplit1. rewrite split1_none by (by rewrite <- in_rev). done.
Qed.

(** With a newline after the closing fence the last line is the empty one:
    it goes, and the fence stays. *)
Lemma strip_fence_trailing_newline first_line text last_line :
  Py.startswith fence first_line = true → ¬ In NL first_line →
  strip_fence (first_line ++ [NL] ++ text ++ [NL] ++ last_line ++ [NL])
  = Ok (text ++ [NL] ++ last_line).
Proof.
  intros Hf H1.
  rewrite <- (strip_fence_fenced first_line (text ++ [NL] ++ last_line) [] Hf H1 (λ x, x)).
  f_equal. cbn [app]. by rewrite <- !app_assoc.
Qed.

Lemma strip_fence_one_line line :
  Py.startswith fence line = true → ¬ In NL line →
  strip_fence line = Raised IndexError.
Proof.
  intros Hf H1. unfold strip_fence. rewrite Hf, split1_none by done. done.
Qed.
End FenceLines.

(** ** The decoder and its fuel *)

Section DecoderFuel.

Lemma skip_ws_length s : (length (Json.skip_ws s) ≤ length s)%nat.
Proof.
  induction s as [|c s IH]; simpl; [lia|]. destruct (Json.is_ws c); simpl; lia.
Qed.

Lemma scanstring_shorter : ∀ n s v r,
  (length s ≤ n)%nat → Json.scanstring s = Some (v, r) → (length r < length s)%nat.
Proof.
  induction n as [|n IH]; intros s v r Hn Hs.
  { destruct s; [done | simpl in Hn; lia]. }
  destruct s as [|c s1]; [done|].
  cbn [Json.scanstring] in Hs.
  assert (Hmore : ∀ x t v r, (length t ≤ n)%nat →
            match Json.scanstring t with
            | Some (v0, r0) => Some (x :: v0, r0)
            | None => None
            end = Some (v, r) → (length r < length t)%nat).
  { intros x t v0 r0 Ht Hm. destruct (Json.scanstring t) as [[v1 r1]|] eqn:Et; [|done].
    injection Hm as <- <-. by eapply IH. }
  cbn [length] in *.
  destruct (c =? Py.dquote); [injection Hs as <- <-; lia|].
  destruct (c =? Py.backslash).
  - destruct s1 as [|e s2]; [done|]. cbn [length] in *.
    destruct (e =? ord "u").
    + destruct s2 as [|h1 [|h2 [|h3 [|h4 s3]]]]; try done. cbn [length] in *.
      destruct (Py.hexnum 0 [h1; h2; h3; h4]) as [m|]; [|done].
      destruct s3 as [|b [|u [|g1 [|g2 [|g3 [|g4 s4]]]]]];
        try (apply Hmore in Hs; cbn [length] in *; lia).
      cbn [length] in *.
      destruct (Json.is_high_surrogate m && (b =? Py.backslash) && (u =? ord "u"));
        [| apply Hmore in Hs; cbn [length] in *; lia].
      destruct (Py.hexnum 0 [g1; g2; g3; g4]) as [m'|]; [|done].
      destruct (Json.is_low_surrogate m'); apply Hmore in Hs; cbn [length] in *; lia.
    + destruct (Json.simple_escape e); [|done]. apply Hmore in Hs; lia.
  - destruct (c <? 32); [done|]. apply Hmore in Hs; lia.
Qed.

Lemma span_digits_length s :
  (length (Json.span_digits s).2 ≤ length s)%nat.
Proof.
  induction s as [|c s IH]; simpl; [lia|].
  destruct (Py.ascii_isdigit c); [|simpl; lia].
  destruct (Json.span_digits s) as [d r]. simpl in *. lia.
Qed.

Lemma match_number_shorter s v r :
  Json.match_number s = Json.Scanned v r → (length r < length s)%nat.
Proof.
  unfold Json.match_number.
  set (p := match s with
            | c :: s' => if c =? ord "-" then (true, s') else (false, s)
            | [] => (false, s)
            end).
  assert (Hp : (length p.2 ≤ length s)%nat).
  { subst p. destruct s as [|c s']; [done|]. destruct (c =? ord "-"); simpl; lia. }
  destruct p as [neg s0]. cbn [snd] in Hp.
  destruct s0 as [|c s1]; [done|]. cbn [length] in Hp.
  set (ip := if c =? ord "0" then Some ([c], s1)
             else if Py.ascii_isdigit c
                  then let '(d, r) := Json.span_digits s1 in Some (c :: d, r)
                  else None).
  assert (Hip : ∀ ds r0, ip = Some (ds, r0) → (length r0 ≤ length s1)%nat).
  { subst ip. intros ds r0. destruct (c =? ord "0"); [by intros [= <- <-]|].
    destruct (Py.ascii_isdigit c); [|done].
    pose proof (span_digits_length s1). destruct (Json.span_digits s1). 
    intros [= <- <-]. done. }
  destruct ip as [[ds r0]|]; [|done]. specialize (Hip _ _ eq_refl).
  set (fr := match r0 with
             | dot :: d :: r' =>
                 if (dot =? ord ".") && Py.ascii_isdigit d
                 then let '(fd, r'') := Json.span_digits (d :: r') in (dot :: fd, r'')
                 else ([], r0)
             | _ => ([], r0)
             end).
  assert (Hfr : (length fr.2 ≤ length r0)%nat).
  { subst fr. destruct r0 as [|dot [|d r']]; try done.
    destruct ((dot =? ord ".") && Py.ascii_isdigit d); [|done].
    pose proof (span_digits_length (d :: r')). destruct (Json.span_digits (d :: r')).
    cbn [snd length] in *. lia. }
  destruct fr as [frac r1]. cbn [snd] in Hfr.
  set (ex := match r1 with
             | e :: r' =>
                 if (e =? ord "e") || (e =? ord "E") then
                   let '(sign, r'') :=
                     match r' with
                     | sg :: t => if (sg =? ord "-") || (sg =? ord "+")
                                  then ([sg], t) else ([], r')
                     | [] => ([], r')
                     end in
                   match Json.span_digits r'' with
                   | ([], _) => ([], r1)
                   | (ed, r3) => (e :: sign ++ ed, r3)
                   end
                 else ([], r1)
             | [] => ([], r1)
             end).
  assert (Hex : (length ex.2 ≤ length r1)%nat).
  { subst ex. destruct r1 as [|e r']; [done|].
    destruct ((e =? ord "e") || (e =? ord "E")); [|done].
    set (sg := match r' with
               | sg :: t => if (sg =? ord "-") || (sg =? ord "+")
                            then ([sg], t) else ([], r')
               | [] => ([], r')
               end).
    assert (Hsg : (length sg.2 ≤ length r')%nat).
    { subst sg. destruct r' as [|x t]; [done|].
      destruct ((x =? ord "-") || (x =? ord "+")); simpl; lia. }
    destruct sg as [sign r'']. cbn [snd] in Hsg.
    pose proof (span_digits_length r'').
    destruct (Json.span_digits r'') as [[|? ?] r3]; cbn [snd length] in *; lia. }
  destruct ex as [exp r2]. cbn [snd] in Hex.
  destruct frac, exp; intros [= _ <-]; lia.
Qed.

Lemma match_number_fuel s : Json.match_number s ≠ Json.NoFuel.
Proof.
  unfold Json.match_number.
  destruct (match s with
            | c :: s' => if c =? ord "-" then (true, s') else (false, s)
            | [] => (false, s)
            end) as [neg s0].
  destruct s0 as [|c s1]; [done|].
  destruct (if c =? ord "0" then Some ([c], s1)
            else if Py.ascii_isdigit c
                 then let '(d, r) := Json.span_digits s1 in Some (c :: d, r)
                 else None) as [[ds r0]|]; [|done].
  destruct (match r0 with
            | dot :: d :: r' =>
                if (dot =? ord ".") && Py.ascii_isdigit d
                then let '(fd, r'') := Json.span_digits (d :: r') in (dot :: fd, r'')
                else ([], r0)
            | _ => ([], r0)
            end) as [frac r1].
  match goal with |- context [let '(exp, r2) := ?e in _] => destruct e as [exp r2] end.
  by destruct frac, exp.
Qed.
End DecoderFuel.

Section DecoderFuel2.

Lemma parse_items_shorter rec : consumes rec → ∀ n s vs r,
  Json.parse_items rec n s = Json.Scanned vs r → (length r < length s)%nat.
Proof.
  intros Hc. induction n as [|n IH]; intros s vs r; [done|].
  cbn [Json.parse_items].
  destruct (rec s) as [v r0| |] eqn:Er; [|done..].
  apply Hc in Er. pose proof (skip_ws_length r0).
  destruct (Json.skip_ws r0) as [|c r'] eqn:Ew; [done|]. cbn [length] in *.
  destruct (c =? ord "]"); [intros [= _ <-]; lia|].
  destruct (c =? ord ","); [|done].
  destruct (Json.parse_items rec n (Json.skip_ws r')) as [vs' r''| |] eqn:Ep; [|done..].
  apply IH in Ep. pose proof (skip_ws_length r'). intros [= _ <-]. lia.
Qed.

Lemma parse_items_fuel rec bound : consumes rec → fuelled rec bound → ∀ n s,
  (length s < bound)%nat → (length s ≤ n)%nat → (0 < n)%nat →
  Json.parse_items rec n s ≠ Json.NoFuel.
Proof.
  intros Hc Hf. induction n as [|n IH]; intros s Hb Hn Hpos; [lia|].
  cbn [Json.parse_items].
  pose proof (Hf s Hb) as Hfs.
  destruct (rec s) as [v r0| |] eqn:Er; [|done..].
  apply Hc in Er. pose proof (skip_ws_length r0).
  destruct (Json.skip_ws r0) as [|c r'] eqn:Ew; [done|]. cbn [length] in *.
  destruct (c =? ord "]"); [done|].
  destruct (c =? ord ","); [|done].
  pose proof (skip_ws_length r').
  specialize (IH (Json.skip_ws r') ltac:(lia) ltac:(lia) ltac:(lia)).
  by destruct (Json.parse_items rec n (Json.skip_ws r')).
Qed.

Lemma parse_members_shorter rec : consumes rec → ∀ n s kvs r,
  Json.parse_members rec n s = Json.Scanned kvs r → (length r < length s)%nat.
Proof.
  intros Hc. induction n as [|n IH]; intros s kvs r; [done|].
  cbn [Json.parse_members].
  destruct s as [|q s1]; [done|]. cbn [length].
  destruct (q =? Py.dquote); [|done].
  destruct (Json.scanstring s1) as [[k r0]|] eqn:Es; [|done].
  apply (scanstring_shorter _ _ _ _ (Nat.le_refl _)) in Es.
  pose proof (skip_ws_length r0).
  destruct (Json.skip_ws r0) as [|colon r1] eqn:Ew; [done|]. cbn [length] in *.
  destruct (colon =? ord ":"); [|done].
  pose proof (skip_ws_length r1).
  destruct (rec (Json.skip_ws r1)) as [v r2| |] eqn:Er; [|done..].
  apply Hc in Er. pose proof (skip_ws_length r2).
  destruct (Json.skip_ws r2) as [|c r3] eqn:Ew2; [done|]. cbn [length] in *.
  destruct (c =? ord "}"); [intros [= _ <-]; lia|].
  destruct (c =? ord ","); [|done].
  destruct (Json.parse_members rec n (Json.skip_ws r3)) as [kvs' r4| |] eqn:Ep; [|done..].
  apply IH in Ep. pose proof (skip_ws_length r3). intros [= _ <-]. lia.
Qed.

Lemma parse_members_fuel rec bound : consumes rec → fuelled rec bound → ∀ n s,
  (length s ≤ bound)%nat → (length s ≤ n)%nat → (0 < n)%nat →
  Json.parse_members rec n s ≠ Json.NoFuel.
Proof.
  intros Hc Hf. induction n as [|n IH]; intros s Hb Hn Hpos; [lia|].
  cbn [Json.parse_members].
  destruct s as [|q s1]; [done|]. cbn [length] in *.
  destruct (q =? Py.dquote); [|done].
  destruct (Json.scanstring s1) as [[k r0]|] eqn:Es; [|done].
  apply (scanstring_shorter _ _ _ _ (Nat.le_refl _)) in Es.
  pose proof (skip_ws_length r0).
  destruct (Json.skip_ws r0) as [|colon r1] eqn:Ew; [done|]. cbn [length] in *.
  destruct (colon =? ord ":"); [|done].
  pose proof (skip_ws_length r1).
  pose proof (Hf (Json.skip_ws r1) ltac:(lia)) as Hfs.
  destruct (rec (Json.skip_ws r1)) as [v r2| |] eqn:Er; [|done..].
  apply Hc in Er. pose proof (skip_ws_length r2).
  destruct (Json.skip_ws r2) as [|c r3] eqn:Ew2; [done|]. cbn [length] in *.
  destruct (c =? ord "}"); [done|].
  destruct (c =? ord ","); [|done].
  pose proof (skip_ws_length r3).
  specialize (IH (Json.skip_ws r3) ltac:(lia) ltac:(lia) ltac:(lia)).
  by destruct (Json.parse_members rec n (Json.skip_ws r3)).
Qed.

Lemma startswith_length p s : Py.startswith p s = true → (length p ≤ length s)%nat.
Proof.
  revert s. induction p as [|a p IH]; intros [|b s]; simpl; try done; try lia.
  intros [_ Hp]%andb_true_iff. apply IH in Hp. lia.
Qed.

Lemma length_lit w : length (lit w) = String.length w.
Proof. unfold lit. rewrite length_map. induction w; simpl; congruence. Qed.

Lemma keyword_outcome w v s out :
  w ≠ EmptyString → Json.keyword w v s = Some out →
  ∃ r, out = Json.Scanned v r ∧ (length r < length s)%nat.
Proof.
  unfold Json.keyword. intros Hw.
  destruct (Py.startswith (lit w) s) eqn:Hs; [|done].
  intros [= <-]. eexists. split; [done|].
  apply startswith_length in Hs. rewrite length_lit in Hs.
  rewrite length_skipn. destruct w; [done|]. simpl in *. lia.
Qed.

Lemma scan_value_shorter rec : consumes rec → consumes (Json.scan_value rec).
Proof.
  intros Hc s v r. unfold Json.scan_value.
  destruct s as [|c s1]; [done|].
  destruct (c =? Py.dquote).
  { destruct (Json.scanstring s1) as [[x r0]|] eqn:Es; [|done].
    apply (scanstring_shorter _ _ _ _ (Nat.le_refl _)) in Es.
    intros [= _ <-]. cbn [length]. lia. }
  pose proof (skip_ws_length s1).
  destruct (c =? ord "{").
  { destruct (Json.skip_ws s1) as [|c2 r0] eqn:Ew; [done|].
    destruct (c2 =? ord "}"); [intros [= _ <-]; cbn [length] in *; lia|].
    destruct (Json.parse_members rec (length s1) (c2 :: r0)) as [kvs r'| |] eqn:Ep; [|done..].
    apply (parse_members_shorter rec Hc) in Ep. intros [= _ <-]. cbn [length] in *. lia. }
  destruct (c =? ord "[").
  { destruct (Json.skip_ws s1) as [|c2 r0] eqn:Ew; [done|].
    destruct (c2 =? ord "]"); [intros [= _ <-]; cbn [length] in *; lia|].
    destruct (Json.parse_items rec (length s1) (c2 :: r0)) as [vs r'| |] eqn:Ep; [|done..].
    apply (parse_items_shorter rec Hc) in Ep. intros [= _ <-]. cbn [length] in *. lia. }
  repeat match goal with
  | |- context [Json.keyword ?w ?x ?t] =>
      let E := fresh in
      destruct (Json.keyword w x t) as [out|] eqn:E;
      [ apply keyword_outcome in E as (r' & -> & ?); [intros [= _ <-]; lia | done] |]
  end.
  apply match_number_shorter.
Qed.

Lemma scan_value_fuel rec bound :
  consumes rec → fuelled rec bound → fuelled (Json.scan_value rec) (S bound).
Proof.
  intros Hc Hf s Hb. unfold Json.scan_value.
  destruct s as [|c s1]; [done|]. cbn [length] in Hb.
  destruct (c =? Py.dquote); [by destruct (Json.scanstring s1) as [[? ?]|]|].
  pose proof (skip_ws_length s1).
  destruct (c =? ord "{").
  { destruct (Json.skip_ws s1) as [|c2 r0] eqn:Ew; [done|].
    destruct (c2 =? ord "}"); [done|].
    pose proof (parse_members_fuel rec bound Hc Hf (length s1) (c2 :: r0)
                  ltac:(lia) ltac:(lia) ltac:(cbn [length] in *; lia)).
    by destruct (Json.parse_members rec (length s1) (c2 :: r0)). }
  destruct (c =? ord "[").
  { destruct (Json.skip_ws s1) as [|c2 r0] eqn:Ew; [done|].
    destruct (c2 =? ord "]"); [done|].
    pose proof (parse_items_fuel rec bound Hc Hf (length s1) (c2 :: r0)
                  ltac:(lia) ltac:(lia) ltac:(cbn [length] in *; lia)).
    by destruct (Json.parse_items rec (length s1) (c2 :: r0)). }
  repeat match goal with
  | |- context [Json.keyword ?w ?x ?t] =>
      let E := fresh in
      destruct (Json.keyword w x t) as [out|] eqn:E;
      [ by apply keyword_outcome in E as (r' & -> & ?) |]
  end.
  apply match_number_fuel.
Qed.

Lemma scan_once_consumes fuel : consumes (Json.scan_once fuel).
Proof.
  induction fuel as [|fuel IH]; [done|]. by apply scan_value_shorter.
Qed.

(** A fuel above the length of the text is never used up. *)
Lemma scan_once_fuelled fuel : fuelled (Json.scan_once fuel) fuel.
Proof.
  induction fuel as [|fuel IH]; [intros s Hs; lia|].
  apply scan_value_fuel; [apply scan_once_consumes | done].
Qed.

Lemma loads_fuel s : Json.scan_once (S (length s)) (Json.skip_ws s) ≠ Json.NoFuel.
Proof. apply scan_once_fuelled. pose proof (skip_ws_length s). lia. Qed.
End DecoderFuel2.

Section DecoderMonotone.

Lemma parse_items_agree rec1 rec2 : agrees rec1 rec2 → ∀ n s,
  Json.parse_items rec1 n s ≠ Json.NoFuel →
  Json.parse_items rec2 n s = Json.parse_items rec1 n s.
Proof.
  intros Ha. induction n as [|n IH]; intros s; [done|].
  cbn [Json.parse_items]. specialize (Ha s).
  destruct (rec1 s) as [v r0| |]; [| by rewrite Ha | done].
  rewrite Ha by done.
  destruct (Json.skip_ws r0) as [|c r']; [done|].
  destruct (c =? ord "]"); [done|]. destruct (c =? ord ","); [|done].
  specialize (IH (Json.skip_ws r')).
  destruct (Json.parse_items rec1 n (Json.skip_ws r')); [| |done]; by rewrite IH.
Qed.

Lemma parse_members_agree rec1 rec2 : agrees rec1 rec2 → ∀ n s,
  Json.parse_members rec1 n s ≠ Json.NoFuel →
  Json.parse_members rec2 n s = Json.parse_members rec1 n s.
Proof.
  intros Ha. induction n as [|n IH]; intros s; [done|].
  cbn [Json.parse_members].
  destruct s as [|q s1]; [done|]. destruct (q =? Py.dquote); [|done].
  destruct (Json.scanstring s1) as [[k r0]|]; [|done].
  destruct (Json.skip_ws r0) as [|colon r1]; [done|].
  destruct (colon =? ord ":"); [|done].
  specialize (Ha (Json.skip_ws r1)).
  destruct (rec1 (Json.skip_ws r1)) as [v r2| |]; [| by rewrite Ha | done].
  rewrite Ha by done.
  destruct (Json.skip_ws r2) as [|c r3]; [done|].
  destruct (c =? ord "}"); [done|]. destruct (c =? ord ","); [|done].
  specialize (IH (Json.skip_ws r3)).
  destruct (Json.parse_members rec1 n (Json.skip_ws r3)); [| |done]; by rewrite IH.
Qed.

Lemma scan_value_agree rec1 rec2 :
  agrees rec1 rec2 → agrees (Json.scan_value rec1) (Json.scan_value rec2).
Proof.
  intros Ha s. unfold Json.scan_value.
  destruct s as [|c s1]; [done|].
  destruct (c =? Py.dquote); [done|].
  destruct (c =? ord "{").
  { destruct (Json.skip_ws s1) as [|c2 r0]; [done|]. destruct (c2 =? ord "}"); [done|].
    pose proof (parse_members_agree rec1 rec2 Ha (length s1) (c2 :: r0)) as Hp.
    destruct (Json.parse_members rec1 (length s1) (c2 :: r0)); [| |done]; by rewrite Hp. }
  destruct (c =? ord "[").
  { destruct (Json.skip_ws s1) as [|c2 r0]; [done|]. destruct (c2 =? ord "]"); [done|].
    pose proof (parse_items_agree rec1 rec2 Ha (length s1) (c2 :: r0)) as Hp.
    destruct (Json.parse_items rec1 (length s1) (c2 :: r0)); [| |done]; by rewrite Hp. }
  done.
Qed.

Lemma scan_once_step fuel : agrees (Json.scan_once fuel) (Json.scan_once (S fuel)).
Proof.
  induction fuel as [|fuel IH]; [by intros s Hs; destruct Hs|].
  change (Json.scan_once (S (S fuel))) with (Json.scan_value (Json.scan_once (S fuel))).
  by apply scan_value_agree.
Qed.

(** The decoder does not depend on how much fuel it got beyond the length
    of the text. *)
Lemma scan_once_fuel_independent s fuel extra :
  (length s < fuel)%nat →
  Json.scan_once (fuel + extra) s = Json.scan_once fuel s.
Proof.
  intros Hs. induction extra as [|extra IH]; [by rewrite Nat.add_0_r|].
  rewrite Nat.add_succ_r, scan_once_step; [done|].
  rewrite IH. by apply scan_once_fuelled.
Qed.
End DecoderMonotone.

(** ** The examples are well formed *)

Lemma five_line_model_valid : model_valid five_line_model.
Proof. intros msgs text [= <-]. unfold valid_str. compute_done. Qed.


(** * The claims of the specification *)

(** C1.  For a reachable cache and a model that returns Python strings,
    [generate_questions] answers with exactly five questions or fails with
    status 500, whatever the request.  When nothing is cached and the reply
    does not hold exactly five question lines, the handler raises the 500
    error after one cache read and one model call: it calls the model once,
    writes nothing to the cache, and neither pads nor cuts the list.  When the
    reply holds five question lines, those five are the answer. *)
Theorem generate_questions_five_or_500 `{Interpreter} now model req w :
  reachable w → model_valid model →
  let key := cache_key (job_desc req) in
  let msgs := generate_messages (job_desc req) in
  let out := generate_questions now model req w in
  ((∃ qs, respond out.1 = Http200 (Questions qs) ∧ length qs = 5%nat)
   ∨ (∃ d, respond out.1 = HttpError 500 d))
  ∧ (∀ text, cache_miss now key (redis w) → model msgs = Content text →
       length (extract_questions text) ≠ 5%nat →
       out = (Raised (HTTPException 500 (StrOf count_error)),
              logged w [CacheGet key; ModelCall msgs]))
  ∧ (∀ text, cache_miss now key (redis w) → model msgs = Content text →
       length (extract_questions text) = 5%nat →
       out.1 = Ok (Questions (extract_questions text))).
Proof.
  intros Hw Hm key msgs out. subst out.
  apply reachable_cache_inv in Hw.
  split; [|split].
  - destruct (cache_miss_or_hit now key (redis w)) as [Hmiss | (c & text & Hhit)].
    + rewrite generate_questions_miss by done. cbn zeta. fold msgs.
      destruct (model msgs) as [text | msg]; [|right; by eexists].
      case_bool_decide as Hlen; [right; by eexists|].
      left. exists (extract_questions text). split; [done | lia].
    + rewrite (generate_questions_hit _ _ _ _ _ _ Hhit).
      destruct (cached_value_evaluates _ _ _ _ Hw Hhit) as (qs & _ & Hlen & ->).
      left. by exists qs.
  - intros text Hmiss Em Hlen.
    rewrite generate_questions_miss by done. cbn zeta. fold msgs key. rewrite Em.
    by rewrite bool_decide_eq_true_2.
  - intros text Hmiss Em Hlen.
    rewrite generate_questions_miss by done. cbn zeta. fold msgs key. rewrite Em.
    by rewrite bool_decide_eq_false_2 by lia.
Qed.


Lemma generate_questions_five_or_500_witness :
  @reachable ascii_interpreter empty_world ∧ model_valid five_line_model ∧
  ((∃ qs, respond (@generate_questions ascii_interpreter 0 five_line_model
                     backend_request empty_world).1 = Http200 (Questions qs)
          ∧ length qs = 5%nat)
   ∨ (∃ d, respond (@generate_questions ascii_interpreter 0 five_line_model
                      backend_request empty_world).1 = HttpError 500 d)).
Proof.
  split; [constructor | split; [exact five_line_model_valid |]].
  exact (proj1 (@generate_questions_five_or_500 ascii_interpreter 0 five_line_model
                  backend_request empty_world (@reach_init ascii_interpreter)
                  five_line_model_valid)).
Defined.


(** C2, as the specification states it, fails: the filter keeps the line
    "10. Why this role?", which starts with a number and a period but not
    with one digit, a period and a space; a reply numbered from 6 to 10 is
    answered with status 200 and that line among the questions. *)
Lemma digit_period_pattern_counterexample :
  (@generate_questions ascii_interpreter 0 (λ _, Content later_lines)
     backend_request empty_world).1
  = Ok (Questions [lit "6. What is REST?"; lit "7. Describe a hard bug.";
                   lit "8. How do you test?"; lit "9. Explain caching.";
                   lit "10. Why this role?"])
  ∧ @is_question_line ascii_interpreter (lit "10. Why this role?") = true
  ∧ @spec_numbered_line ascii_interpreter (Py.strip (lit "10. Why this role?")) = false.
Proof. vm_compute. repeat split. Qed.

(** C2, amended.  Every extracted question is the stripped form of a line of
    the reply, is not empty, starts with a digit and holds a period followed
    by a space within its first ten characters.  Every line whose stripped
    form starts with a number of one to eight digits, a period and a space is
    kept; so is, in particular, every line of the shape the specification
    gives (one digit, a period, a space, more text). *)
Theorem question_filter_bounds `{Interpreter} (content : pystr) :
  (∀ q, In q (extract_questions content) →
     ∃ line, In line (Py.split NL content) ∧ q = Py.strip line ∧
       ∃ c t, q = c :: t ∧ Py.isdigit c = true
              ∧ Py.contains (lit ". ") (Py.slice_to 10 q) = true)
  ∧ (∀ line, In line (Py.split NL content) →
       numbered_line (Py.strip line) →
       In (Py.strip line) (extract_questions content))
  ∧ (∀ line, In line (Py.split NL content) →
       spec_numbered_line (Py.strip line) = true →
       In (Py.strip line) (extract_questions content)).
Proof.
  repeat split.
  - intros q (line & Hin & Hq & ->)%in_extract_questions.
    exists line. repeat split; [done|]. by apply is_question_line_iff.
  - intros line Hin Hn. apply in_extract_questions. exists line.
    repeat split; [done|]. by apply numbered_line_accepted.
  - intros line Hin Hs. apply in_extract_questions. exists line.
    repeat split; [done|]. by apply spec_numbered_line_accepted.
Qed.


(** C3.  After a successful [generate_questions], the same request sent
    while the entry of its key is live is answered from the cache with the
    same questions: the only call it makes is the cache read, so there is no
    model call and no cache write.  The entry evaluates to the questions that
    were returned; what the first request wrote, if it wrote, is [str] of
    those questions with a lifetime of 3600 seconds, and it evaluates back to
    them.  When the first request was served by the model, the entry is live
    at every instant before one hour has passed. *)
Theorem cache_hit_idempotent `{Interpreter} now1 now2 model1 model2 req w w1 qs :
  model_valid model1 →
  generate_questions now1 model1 req w = (Ok (Questions qs), w1) →
  within_ttl (redis w1) (cache_key (job_desc req)) now2 →
  let key := cache_key (job_desc req) in
  generate_questions now2 model2 req w1 = (Ok (Questions qs), logged w1 [CacheGet key])
  ∧ (∃ v expires, redis w1 !! key = Some (v, expires) ∧ Py.eval v = Py.EvalList qs)
  ∧ (∀ evs k ttl v, log w1 = log w ++ evs → In (CacheSet k ttl v) evs →
       k = key ∧ ttl = 3600%Z ∧ v = Py.str_of_list qs ∧ Py.eval v = Py.EvalList qs
       ∧ redis w1 !! key = Some (v, (now1 + 3600)%Z))
  ∧ (cache_miss now1 key (redis w) →
       ∀ t, (t < now1 + 3600)%Z → within_ttl (redis w1) key t).
Proof.
  intros Hm Hrun Httl key.
  destruct (generate_questions_repeat now1 now2 model1 model2 req req w w1 qs
              Hm eq_refl Hrun Httl) as [Hsecond Hentry].
  split; [exact Hsecond | split; [exact Hentry | split]].
  - intros evs k ttl v Hlog Hin.
    destruct (generate_questions_ok_entry _ _ _ _ _ _ Hm Hrun)
      as [(Hmiss & -> & Hvalid) | (c & text & Hhit & Hev & ->)];
      cbn [log logged redis] in *; apply app_inv_head in Hlog; subst evs.
    + destruct Hin as [|[|[[= <- <- <-]|[]]]]; try done.
      repeat split; [by apply eval_str_of_list | apply lookup_insert_eq].
    + by destruct Hin as [|[]].
  - intros Hmiss t Ht.
    destruct (generate_questions_ok_entry _ _ _ _ _ _ Hm Hrun)
      as [(_ & -> & _) | (c & text & Hhit & _ & _)].
    + unfold within_ttl. cbn [redis]. fold key. by rewrite lookup_insert_eq.
    + fold key in Hhit. destruct Hmiss as [Hmiss | Hmiss]; by rewrite Hmiss in Hhit.
Qed.

Lemma cache_hit_idempotent_witness :
  let first := @generate_questions ascii_interpreter 100 five_line_model
                 backend_request empty_world in
  let key := @cache_key ascii_interpreter (job_desc backend_request) in
  model_valid five_line_model
  ∧ first.1 = Ok (Questions (@extract_questions ascii_interpreter five_lines))
  ∧ within_ttl (redis first.2) key 3699
  ∧ @generate_questions ascii_interpreter 3699 (λ _, ApiError []) backend_request first.2
    = (Ok (Questions (@extract_questions ascii_interpreter five_lines)),
       logged first.2 [CacheGet key]).
Proof.
  cbv zeta.
  assert (Hrun : @generate_questions ascii_interpreter 100 five_line_model
                   backend_request empty_world
                 = (Ok (Questions (@extract_questions ascii_interpreter five_lines)),
                    (@generate_questions ascii_interpreter 100 five_line_model
                       backend_request empty_world).2)).
  { vm_compute. reflexivity. }
  assert (Httl : within_ttl
            (redis (@generate_questions ascii_interpreter 100 five_line_model
                      backend_request empty_world).2)
            (@cache_key ascii_interpreter (job_desc backend_request)) 3699).
  { vm_compute. reflexivity. }
  split; [exact five_line_model_valid | split; [by rewrite Hrun | split; [exact Httl |]]].
  exact (proj1 (@cache_hit_idempotent ascii_interpreter 100 3699 five_line_model
                  (λ _, ApiError []) backend_request empty_world _ _
                  five_line_model_valid Hrun Httl)).
Defined.


(** C4.  When the reply decodes to an object that holds the three keys
    strengths, improvements and recommendations, [analyze_responses]
    succeeds, and in the object it serializes each of the three keys that was
    bound to a string is bound to the one-element list of that string, each
    that was bound to anything else (a list in particular) is unchanged, and
    every other key is unchanged; the keys keep their order. *)
Theorem string_fields_are_wrapped `{Interpreter} model responses w rendered
    feedback text d :
  render_answers (answers responses) = Ok rendered →
  model (analyze_messages rendered) = Content feedback →
  strip_fence feedback = Ok text →
  Json.loads text = Some (Json.Obj d) →
  (∀ k, k ∈ list_keys → is_Some (Json.dict_get k d)) →
  ∃ d', (analyze_responses model responses w).1
          = Ok (Feedback (Json.dumps (Json.Obj d')))
    ∧ map fst d' = map fst d
    ∧ (∀ k s, k ∈ list_keys → Json.dict_get k d = Some (Json.Str s) →
         Json.dict_get k d' = Some (Json.Arr [Json.Str s]))
    ∧ (∀ k x, k ∈ list_keys → Json.dict_get k d = Some x →
         (∀ s, x ≠ Json.Str s) → Json.dict_get k d' = Some x)
    ∧ (∀ k, k ∉ list_keys → Json.dict_get k d' = Json.dict_get k d).
Proof.
  intros Hr Hm Hs Hl Hall.
  destruct (normalize_obj list_keys d Hall) as (d' & Hn & Hkeys & Hget).
  exists d'. split; [|split; [done|]].
  - rewrite analyze_responses_run, Hr, Hm, parse_feedback_run, Hs, Hl, Hn. done.
  - repeat split.
    + intros k s Hk Hd. by rewrite Hget, bool_decide_eq_true_2, Hd.
    + intros k x Hk Hd Hx. rewrite Hget, bool_decide_eq_true_2, Hd by done.
      destruct x; try done. by destruct (Hx s).
    + intros k Hk. by rewrite Hget, bool_decide_eq_false_2.
Qed.


Lemma string_fields_are_wrapped_witness :
  render_answers (answers two_answers) = Ok (map render_pair two_pairs)
  ∧ strip_fence good_fenced = Ok good_json
  ∧ Json.loads good_json = Some (Json.Obj good_members)
  ∧ ∃ d', (@analyze_responses ascii_interpreter (λ _, Content good_fenced)
             two_answers empty_world).1
          = Ok (Feedback (@Json.dumps ascii_interpreter (Json.Obj d')))
    ∧ Json.dict_get (lit "strengths") d'
      = Some (Json.Arr [Json.Str (lit "Clear answers")]).
Proof.
  assert (Hr : render_answers (answers two_answers) = Ok (map render_pair two_pairs))
    by (vm_compute; reflexivity).
  assert (Hs : strip_fence good_fenced = Ok good_json) by (vm_compute; reflexivity).
  assert (Hl : Json.loads good_json = Some (Json.Obj good_members))
    by (vm_compute; reflexivity).
  assert (Hall : ∀ k, k ∈ list_keys → is_Some (Json.dict_get k good_members)).
  { intros k Hk. unfold list_keys in Hk.
    repeat (apply elem_of_cons in Hk as [-> | Hk]; [vm_compute; eauto|]).
    by apply elem_of_nil in Hk. }
  split; [exact Hr | split; [exact Hs | split; [exact Hl |]]].
  destruct (@string_fields_are_wrapped ascii_interpreter (λ _, Content good_fenced)
              two_answers empty_world _ good_fenced good_json good_members
              Hr eq_refl Hs Hl Hall) as (d' & Hrun & _ & Hwrap & _).
  exists d'. split; [exact Hrun|].
  apply Hwrap; [unfold list_keys; apply list_elem_of_here | vm_compute; reflexivity].
Defined.



(** C5.  The fenced reply [good_fenced] followed by one line break, which a
    model can send, is not parsed like its JSON text.  Its lines are the
    opening fence, the JSON text and the closing fence, closed by a line
    break; [rsplit("\n", 1)[0]] of line 208 cuts off the empty text after
    that line break only, the closing fence stays, [json.loads] rejects the
    text and the answer is status 500, while the JSON text alone, and the
    fenced reply without the final line break, are answered with status 200
    and the normalized feedback.  The same two lines do not drop a last line
    from a fenced text of two lines, and raise on a fenced text of one
    line. *)
Lemma closing_fence_newline_divergence :
  Py.split NL (good_fenced ++ [NL]) = [lit "```json"; good_json; lit "```"; []]
  ∧ strip_fence (good_fenced ++ [NL]) = Ok (good_json ++ [NL] ++ lit "```")
  ∧ Json.loads (good_json ++ [NL] ++ lit "```") = None
  ∧ respond (@analyze_responses ascii_interpreter newline_fenced_model two_answers
               empty_world).1
    = HttpError 500 (StrOf (HTTPException 500 (StrOf JSONDecodeError)))
  ∧ Json.loads good_json = Some (Json.Obj good_members)
  ∧ respond (@analyze_responses ascii_interpreter (λ _, Content good_json) two_answers
               empty_world).1
    = Http200 (Feedback (@Json.dumps ascii_interpreter
                           (Json.Obj (Json.dict_set (lit "strengths")
                                        (Json.Arr [Json.Str (lit "Clear answers")])
                                        good_members))))
  ∧ respond (@analyze_responses ascii_interpreter (λ _, Content good_fenced) two_answers
               empty_world).1
    = respond (@analyze_responses ascii_interpreter (λ _, Content good_json)
                 two_answers empty_world).1
  ∧ strip_fence (lit "```json" ++ [NL] ++ good_json) = Ok good_json
  ∧ strip_fence (lit "```json") = Raised IndexError.
Proof. vm_compute. repeat split. Qed.

(** Where no line break follows the last line the stripping does what the
    comments of lines 207 and 208 say.  Let a text that [json.loads] accepts
    be wrapped between a first line that starts with a fence and a last line,
    neither holding a newline.  Stripping gives back the text, which is the
    lines of the wrapped text without the first and the last one; the text
    itself is left as it is; and the wrapped and the bare text are parsed to
    the same outcome, by the inner block and by the whole handler.  More
    generally, any text that starts with a fence and has at least three lines
    is left with its lines between the first and the last one. *)
Theorem fenced_feedback_parses_alike `{Interpreter} first_line json_text last_line v :
  Py.startswith fence first_line = true →
  ¬ In NL first_line → ¬ In NL last_line →
  Json.loads json_text = Some v →
  let fenced := first_line ++ [NL] ++ json_text ++ [NL] ++ last_line in
  strip_fence fenced = Ok json_text
  ∧ Py.join [NL] (removelast (tail (Py.split NL fenced))) = json_text
  ∧ strip_fence json_text = Ok json_text
  ∧ parse_feedback fenced = parse_feedback json_text
  ∧ (∀ responses w,
       analyze_responses (λ _, Content fenced) responses w
       = analyze_responses (λ _, Content json_text) responses w)
  ∧ (∀ text, Py.startswith fence text = true →
       (3 ≤ length (Py.split NL text))%nat →
       strip_fence text
       = Ok (Py.join [NL] (removelast (tail (Py.split NL text))))).
Proof.
  intros Hf H1 H2 Hl fenced.
  assert (Hs : strip_fence fenced = Ok json_text) by (by apply strip_fence_fenced).
  assert (Hj : strip_fence json_text = Ok json_text).
  { unfold strip_fence. by rewrite (loads_not_fenced _ _ Hl). }
  assert (Hp : parse_feedback fenced = parse_feedback json_text).
  { by rewrite !parse_feedback_run, Hs, Hj. }
  split; [done | split; [| split; [done | split; [done | split]]]].
  - subst fenced. rewrite fenced_lines by done. cbn [tail].
    rewrite removelast_last. apply join_split.
  - intros responses w. by rewrite !analyze_responses_run, Hp.
  - apply strip_fence_lines.
Qed.


Lemma fenced_feedback_parses_alike_witness :
  Py.startswith fence (lit "```json") = true
  ∧ ¬ In NL (lit "```json") ∧ ¬ In NL (lit "```")
  ∧ Json.loads good_json = Some (Json.Obj good_members)
  ∧ @parse_feedback ascii_interpreter good_fenced
    = @parse_feedback ascii_interpreter good_json.
Proof.
  assert (H1 : ¬ In NL (lit "```json")) by (vm_compute; intuition discriminate).
  assert (H2 : ¬ In NL (lit "```")) by (vm_compute; intuition discriminate).
  assert (Hl : Json.loads good_json = Some (Json.Obj good_members))
    by (vm_compute; reflexivity).
  split; [reflexivity | split; [exact H1 | split; [exact H2 | split; [exact Hl|]]]].
  exact (proj1 (proj2 (proj2 (proj2
           (@fenced_feedback_parses_alike ascii_interpreter (lit "```json") good_json
              (lit "```") _ eq_refl H1 H2 Hl))))).
Defined.

(** The schema of the specification for a report. *)

(** C6, as the specification states it, fails: a reply without any score
    and with a number for strengths is answered with status 200 and the
    object as it came, although that object is not a complete report. *)
Lemma incomplete_feedback_counterexample :
  respond (@analyze_responses ascii_interpreter (λ _, Content scoreless_json)
             two_answers empty_world).1
  = Http200 (Feedback scoreless_json)
  ∧ Json.loads scoreless_json = Some (Json.Obj scoreless_members)
  ∧ Json.dict_get (lit "technical_score") scoreless_members = None
  ∧ spec_string_list (Json.dict_get (lit "strengths") scoreless_members) = false
  ∧ spec_report (Json.Obj scoreless_members) = false.
Proof. vm_compute. repeat split. Qed.

(** C6, amended.  When the model has replied, [analyze_responses] answers
    with status 500 if stripping the fence fails (a fenced reply without a
    line break), if the stripped text is not valid JSON, if it decodes to
    something other than an object, and if the object lacks one of the keys
    strengths, improvements, recommendations; otherwise it answers with the
    serialization of the whole object after the normalization of lines
    214-216: the keys and their order are those of the parsed object, a
    string under one of the three keys is wrapped into a one-element list,
    and every other value is the parsed one.  Whatever the request and the
    reply, the answer is a feedback text or status 500.  Scores and the types
    of the fields are not checked. *)
Theorem analysis_failures_are_500 `{Interpreter} model responses w rendered feedback :
  render_answers (answers responses) = Ok rendered →
  model (analyze_messages rendered) = Content feedback →
  let answer := respond (analyze_responses model responses w).1 in
  let failed cause := answer = HttpError 500 (StrOf (HTTPException 500 (StrOf cause))) in
  (∀ e, strip_fence feedback = Raised e → failed e)
  ∧ (∀ text, strip_fence feedback = Ok text → Json.loads text = None →
       failed JSONDecodeError)
  ∧ (∀ text v, strip_fence feedback = Ok text → Json.loads text = Some v →
       (∀ d, v ≠ Json.Obj d) → failed TypeError)
  ∧ (∀ text d, strip_fence feedback = Ok text → Json.loads text = Some (Json.Obj d) →
       (∃ k, k ∈ list_keys ∧ Json.dict_get k d = None) →
       ∃ k, k ∈ list_keys ∧ failed (KeyError k))
  ∧ (∀ text d, strip_fence feedback = Ok text → Json.loads text = Some (Json.Obj d) →
       (∀ k, k ∈ list_keys → is_Some (Json.dict_get k d)) →
       ∃ d', answer = Http200 (Feedback (Json.dumps (Json.Obj d')))
             ∧ map fst d' = map fst d
             ∧ (∀ k s, k ∈ list_keys → Json.dict_get k d = Some (Json.Str s) →
                  Json.dict_get k d' = Some (Json.Arr [Json.Str s]))
             ∧ (∀ k x, k ∈ list_keys → Json.dict_get k d = Some x →
                  (∀ s, x ≠ Json.Str s) → Json.dict_get k d' = Some x)
             ∧ (∀ k, k ∉ list_keys → Json.dict_get k d' = Json.dict_get k d))
  ∧ (∀ model' responses' w',
       match respond (analyze_responses model' responses' w').1 with
       | Http200 (Feedback _) => True
       | HttpError status _ => status = 500%Z
       | _ => False
       end).
Proof.
  intros Hr Hm answer failed. subst answer failed. cbv beta.
  rewrite analyze_responses_run, Hr, Hm, parse_feedback_run. cbn [fst].
  repeat split.
  - intros e He. by rewrite He.
  - intros text Hs Hl. by rewrite Hs, Hl.
  - intros text v Hs Hl Hv. rewrite Hs, Hl, normalize_not_obj; done.
  - intros text d Hs Hl Hmiss.
    destruct (normalize_missing list_keys d Hmiss) as (k & Hk & Hn).
    exists k. split; [done|]. by rewrite Hs, Hl, Hn.
  - intros text d Hs Hl Hall.
    destruct (normalize_obj list_keys d Hall) as (d' & Hn & Hkeys & Hget).
    exists d'. split; [by rewrite Hs, Hl, Hn | split; [done|]].
    split; [|split].
    + intros k s Hk Hd. by rewrite Hget, bool_decide_eq_true_2, Hd.
    + intros k x Hk Hd Hx. rewrite Hget, bool_decide_eq_true_2, Hd by done.
      destruct x; try done. by destruct (Hx s).
    + intros k Hk. by rewrite Hget, bool_decide_eq_false_2.
  - intros model' responses' w'. apply analyze_responses_outcome.
Qed.

Lemma analysis_failures_are_500_witness :
  render_answers (answers two_answers) = Ok (map render_pair two_pairs)
  ∧ strip_fence (lit "Sorry, no JSON today.") = Ok (lit "Sorry, no JSON today.")
  ∧ Json.loads (lit "Sorry, no JSON today.") = None
  ∧ respond (@analyze_responses ascii_interpreter
               (λ _, Content (lit "Sorry, no JSON today.")) two_answers empty_world).1
    = HttpError 500 (StrOf (HTTPException 500 (StrOf JSONDecodeError))).
Proof.
  assert (Hr : render_answers (answers two_answers) = Ok (map render_pair two_pairs))
    by (vm_compute; reflexivity).
  assert (Hs : strip_fence (lit "Sorry, no JSON today.")
               = Ok (lit "Sorry, no JSON today.")) by (vm_compute; reflexivity).
  assert (Hl : Json.loads (lit "Sorry, no JSON today.") = None)
    by (vm_compute; reflexivity).
  split; [exact Hr | split; [exact Hs | split; [exact Hl|]]].
  exact (proj1 (proj2 (@analysis_failures_are_500 ascii_interpreter
                         (λ _, Content (lit "Sorry, no JSON today.")) two_answers
                         empty_world _ _ Hr eq_refl)) _ Hs Hl).
Defined.

(** C7, as the specification states it, fails: a reply whose scores are 99,
    a string, and a negative number, and whose lists hold numbers or are
    null, is answered with status 200; the report that is returned decodes to
    an object outside the declared schema. *)
Lemma report_schema_counterexample :
  (@analyze_responses ascii_interpreter (λ _, Content wild_json)
     two_answers empty_world).1
  = Ok (Feedback wild_report)
  ∧ Json.loads wild_report = Some (Json.Obj wild_members)
  ∧ spec_report (Json.Obj wild_members) = false
  ∧ spec_score (Json.dict_get (lit "technical_score") wild_members) = false
  ∧ spec_score (Json.dict_get (lit "communication_score") wild_members) = false
  ∧ spec_string_list (Json.dict_get (lit "strengths") wild_members) = false.
Proof. vm_compute. repeat split. Qed.

(** C7, amended.  Every report that [analyze_responses] returns is the
    serialization of an object in which strengths, improvements and
    recommendations are present and none of them is bound to a bare
    string. *)
Theorem feedback_report_shape `{Interpreter} model responses w b :
  (analyze_responses model responses w).1 = Ok b →
  ∃ d', b = Feedback (Json.dumps (Json.Obj d'))
        ∧ ∀ k, k ∈ list_keys →
            ∃ x, Json.dict_get k d' = Some x ∧ ∀ s, x ≠ Json.Str s.
Proof.
  rewrite analyze_responses_run.
  destruct (render_answers (answers responses)) as [rendered| |]; [|done..].
  cbn [fst]. destruct (model (analyze_messages rendered)) as [feedback | msg]; [|done].
  rewrite parse_feedback_run.
  destruct (strip_fence feedback) as [text| |]; [|done..].
  destruct (Json.loads text) as [v|]; [|done].
  destruct (normalize list_keys v) as [v'| |] eqn:Hn; [|done..].
  intros [= <-].
  assert (Hobj : ∃ d, v = Json.Obj d).
  { destruct v; eauto; by rewrite normalize_not_obj in Hn. }
  destruct Hobj as [d ->].
  destruct (keys_present_or_missing list_keys d) as [Hall | Hmiss].
  - destruct (normalize_obj list_keys d Hall) as (d' & Hn' & _ & Hget).
    rewrite Hn' in Hn. injection Hn as <-. exists d'. split; [done|].
    intros k Hk. destruct (Hall k Hk) as [x Hx].
    exists (wrap_string x). rewrite Hget, bool_decide_eq_true_2, Hx by done.
    split; [done|]. by destruct x.
  - destruct (normalize_missing list_keys d Hmiss) as (k & _ & Hn').
    by rewrite Hn' in Hn.
Qed.


Lemma feedback_report_shape_witness :
  (@analyze_responses ascii_interpreter (λ _, Content wild_json)
     two_answers empty_world).1
  = Ok (Feedback (@Json.dumps ascii_interpreter (Json.Obj wild_members)))
  ∧ ∃ d', Feedback (@Json.dumps ascii_interpreter (Json.Obj wild_members))
          = Feedback (@Json.dumps ascii_interpreter (Json.Obj d'))
    ∧ ∀ k, k ∈ list_keys →
        ∃ x, Json.dict_get k d' = Some x ∧ ∀ s, x ≠ Json.Str s.
Proof.
  assert (Hrun : (@analyze_responses ascii_interpreter (λ _, Content wild_json)
                    two_answers empty_world).1
                 = Ok (Feedback (@Json.dumps ascii_interpreter (Json.Obj wild_members))))
    by (vm_compute; reflexivity).
  split; [exact Hrun|].
  exact (@feedback_report_shape ascii_interpreter _ _ _ _ Hrun).
Defined.

(** C8.  Let a client send requests to one route, the first one when no
    window is open for it, the others before that minute is over.  A request
    is rejected with 429 exactly when at least five came before it, so the
    fifth is accepted and the sixth is rejected; a rejected request leaves the
    server as it was: no cache read, no model call, no cache write. *)
Theorem sixth_request_is_rejected `{Interpreter} client scope t0 rq0 more t rq srv :
  window_closed (srv_limits srv) scope client t0 →
  Forall (in_window scope t0) ((t0, rq0) :: more ++ [(t, rq)]) →
  let before := serve client ((t0, rq0) :: more) srv in
  let out := post client t rq before in
  (out.1 = RateLimited ↔ (5 ≤ length ((t0, rq0) :: more))%nat)
  ∧ (out.1 = RateLimited → out.2 = before).
Proof.
  intros Hc Hall before out.
  apply Forall_cons in Hall as [[Hr0 _] Hall].
  apply Forall_app in Hall as [Hmore Hlast]. rewrite Forall_singleton in Hlast.
  destruct (post_opens_window client scope t0 rq0 srv Hc Hr0) as [_ Hopen].
  pose proof (serve_in_window client scope t0 more _ 1 Hopen Hmore) as Hl.
  change (serve client more (post client t0 rq0 srv).2) with before in Hl.
  destruct (post_in_window client scope t0 _ t rq before Hl Hlast) as (Hrej & Hsame & _).
  fold out in Hrej, Hsame. cbn [length]. unfold limit_count in *.
  destruct (Nat.ltb_spec (1 + length more) 5) as [Hlt | Hge].
  - split; [rewrite Hrej; lia|]. intros Hr. apply Hrej in Hr. lia.
  - split; [rewrite Hrej; lia|]. intros _. apply Hsame. lia.
Qed.


Lemma sixth_request_is_rejected_witness :
  window_closed (srv_limits empty_server) (lit "generate_questions") client_a 0
  ∧ Forall (in_window (lit "generate_questions") 0)
      ((0%Z, a_request) :: four_more ++ [(59%Z, a_request)])
  ∧ (@post ascii_interpreter client_a 59 a_request
       (@serve ascii_interpreter client_a ((0%Z, a_request) :: four_more)
          empty_server)).1 = RateLimited
  ∧ (@post ascii_interpreter client_a 59 a_request
       (@serve ascii_interpreter client_a ((0%Z, a_request) :: four_more)
          empty_server)).2
    = @serve ascii_interpreter client_a ((0%Z, a_request) :: four_more) empty_server.
Proof.
  assert (Hc : window_closed (srv_limits empty_server)
                 (lit "generate_questions") client_a 0) by (vm_compute; exact I).
  assert (Hall : Forall (in_window (lit "generate_questions") 0)
                   ((0%Z, a_request) :: four_more ++ [(59%Z, a_request)])).
  { repeat constructor. }
  destruct (@sixth_request_is_rejected ascii_interpreter client_a
              (lit "generate_questions") 0 a_request four_more 59 a_request
              empty_server Hc Hall) as [Hiff Hsame].
  assert (Hr : (@post ascii_interpreter client_a 59 a_request
                  (@serve ascii_interpreter client_a ((0%Z, a_request) :: four_more)
                     empty_server)).1 = RateLimited).
  { apply Hiff. simpl. lia. }
  split; [exact Hc | split; [exact Hall | split; [exact Hr | exact (Hsame Hr)]]].
Defined.

(** C9.  When every dict holds a question and an answer, the handler calls
    the model once, with the system prompt and a user prompt made of the
    header, the renderings "Q: question, newline, A: answer, newline" of the
    pairs joined by newlines in the order given, and the footer.  The
    rendering of pair [i] stands in the prompt at [pair_offset pairs i], and
    the next one starts one character after its end. *)
Theorem prompt_keeps_interview_order `{Interpreter} model responses pairs w :
  Forall2 holds_pair (answers responses) pairs →
  let prompt :=
    analysis_header ++ Py.join [NL] (map render_pair pairs) ++ analysis_footer in
  log (analyze_responses model responses w).2
    = log w ++ [ModelCall [ {| role := lit "system"; content := SYSTEM_PROMPT |};
                            {| role := lit "user"; content := prompt |} ]]
  ∧ (∀ i p, pairs !! i = Some p →
       take (length (render_pair p)) (drop (pair_offset pairs i) prompt)
       = render_pair p
       ∧ pair_offset pairs (S i)
         = (pair_offset pairs i + length (render_pair p) + 1)%nat).
Proof.
  intros Hpairs prompt. split.
  - rewrite analyze_responses_run, (render_answers_holds _ _ Hpairs). done.
  - intros i p Hi. split.
    + subst prompt. unfold pair_offset.
      rewrite <- drop_drop, drop_app_length.
      change (take i pairs) with (firstn i pairs).
      rewrite <- firstn_map.
      apply join_rendering_at. by rewrite list_lookup_fmap, Hi.
    + unfold pair_offset. rewrite (take_S_r _ _ _ Hi), map_app. cbn [map].
      rewrite joined_length_snoc. lia.
Qed.


Lemma prompt_keeps_interview_order_witness :
  Forall2 holds_pair (answers two_answers) two_pairs
  ∧ log (@analyze_responses ascii_interpreter (λ _, Content good_fenced)
           two_answers empty_world).2
    = [ModelCall (analyze_messages
         [lit "Q: What is REST?" ++ [NL] ++ lit "A: An architectural style." ++ [NL];
          lit "Q: Why this role?" ++ [NL] ++ lit "A: I like APIs." ++ [NL]])].
Proof.
  assert (Hp : Forall2 holds_pair (answers two_answers) two_pairs).
  { repeat constructor; vm_compute; reflexivity. }
  split; [exact Hp|].
  exact (proj1 (@prompt_keeps_interview_order ascii_interpreter
                  (λ _, Content good_fenced) two_answers two_pairs empty_world Hp)).
Defined.


(** C10.  Two job descriptions whose title and description concatenate to
    the same string have the same cache key; hence, after a successful
    request for the first, a request for the second sent while the entry is
    live is answered from the cache with the questions of the first, with no
    call but the cache read. *)
Theorem cache_key_depends_on_concatenation `{Interpreter} (jd1 jd2 : JobDescription) :
  title jd1 ++ description jd1 = title jd2 ++ description jd2 →
  cache_key jd1 = cache_key jd2
  ∧ ∀ now1 now2 model1 model2 w w1 qs,
      model_valid model1 →
      generate_questions now1 model1 {| job_desc := jd1 |} w = (Ok (Questions qs), w1) →
      within_ttl (redis w1) (cache_key jd1) now2 →
      generate_questions now2 model2 {| job_desc := jd2 |} w1
      = (Ok (Questions qs), logged w1 [CacheGet (cache_key jd2)]).
Proof.
  intros Hcat.
  assert (Hkey : cache_key jd2 = cache_key jd1) by (unfold cache_key; by rewrite Hcat).
  split; [done|].
  intros now1 now2 model1 model2 w w1 qs Hm Hrun Httl.
  by apply (generate_questions_repeat now1 now2 model1 model2
              {| job_desc := jd1 |} {| job_desc := jd2 |} w w1 qs Hm Hkey Hrun Httl).
Qed.


Lemma cache_key_depends_on_concatenation_witness :
  title split_ab_c ++ description split_ab_c = title split_a_bc ++ description split_a_bc
  ∧ @cache_key ascii_interpreter split_ab_c = @cache_key ascii_interpreter split_a_bc.
Proof.
  split; [reflexivity|].
  exact (proj1 (@cache_key_depends_on_concatenation ascii_interpreter
                  split_ab_c split_a_bc eq_refl)).
Defined.


(** * Further facts about the built-ins and the handlers *)

(** ** [strip] *)

Section StripFacts.

Lemma lstrip_snoc l c :
  Py.lstrip (l ++ [c]) =
  match Py.lstrip l with
  | [] => if Py.isspace c then [] else [c]
  | t => t ++ [c]
  end.
Proof.
  induction l as [|x l IH]; simpl; [done|].
  destruct (Py.isspace x); [exact IH | done].
Qed.

(** [rstrip] read from the left. *)
Lemma rstrip_cons c t :
  Py.rstrip (c :: t) =
  match Py.rstrip t with
  | [] => if Py.isspace c then [] else [c]
  | r => c :: r
  end.
Proof.
  unfold Py.rstrip. cbn [rev]. rewrite lstrip_snoc.
  destruct (Py.lstrip (rev t)) as [|y u] eqn:E; cbn [rev].
  - by destruct (Py.isspace c).
  - destruct (rev u ++ [y]) eqn:E2; [by destruct (rev u)|].
    rewrite <- E2. by rewrite rev_app_distr.
Qed.

Lemma lstrip_head s :
  match Py.lstrip s with [] => True | c :: _ => Py.isspace c = false end.
Proof.
  induction s as [|c s IH]; simpl; [done|]. by destruct (Py.isspace c) eqn:E.
Qed.

Lemma lstrip_fixed c t : Py.isspace c = false → Py.lstrip (c :: t) = c :: t.
Proof. intros E. simpl. by rewrite E. Qed.

Lemma rstrip_idem t : Py.rstrip (Py.rstrip t) = Py.rstrip t.
Proof.
  induction t as [|c t IH]; [done|].
  rewrite rstrip_cons. destruct (Py.rstrip t) as [|y r] eqn:E.
  - destruct (Py.isspace c) eqn:Ec; [done|]. rewrite rstrip_cons.
    change (Py.rstrip []) with (@nil N). by rewrite Ec.
  - rewrite rstrip_cons, IH. done.
Qed.

Lemma rstrip_keeps_head c t :
  Py.isspace c = false → ∃ r, Py.rstrip (c :: t) = c :: r.
Proof.
  intros E. rewrite rstrip_cons. destruct (Py.rstrip t); rewrite ?E; eauto.
Qed.

Lemma strip_idem s : Py.strip (Py.strip s) = Py.strip s.
Proof.
  unfold Py.strip. pose proof (lstrip_head s) as Hh.
  destruct (Py.lstrip s) as [|c t]; [done|].
  destruct (rstrip_keeps_head c t Hh) as [r Hr].
  rewrite Hr, (lstrip_fixed c r Hh), <- Hr. apply rstrip_idem.
Qed.




Lemma lstrip_incl c s : In c (Py.lstrip s) → In c s.
Proof.
  induction s as [|x s IH]; simpl; [done|].
  destruct (Py.isspace x); [auto | done].
Qed.

Lemma strip_incl c s : In c (Py.strip s) → In c s.
Proof.
  unfold Py.strip, Py.rstrip. rewrite <- in_rev. intros Hc%lstrip_incl.
  rewrite <- in_rev in Hc. by apply lstrip_incl.
Qed.

(** A carriage return at the end of a line is stripped with the rest. *)
Lemma strip_snoc_space s c : Py.isspace c = true → Py.strip (s ++ [c]) = Py.strip s.
Proof.
  intros Ec. unfold Py.strip. rewrite lstrip_snoc.
  destruct (Py.lstrip s) as [|x t] eqn:E; [by rewrite Ec|].
  unfold Py.rstrip. rewrite rev_app_distr. cbn [rev app Py.lstrip]. by rewrite Ec.
Qed.
End StripFacts.

(** ** The question filter, line by line *)

Section QuestionFacts.
Context `{Interpreter}.

Lemma extract_questions_split content :
  extract_questions content = questions_of_lines (Py.split NL content).
Proof. reflexivity. Qed.

Lemma questions_of_lines_app l1 l2 :
  questions_of_lines (l1 ++ l2) = questions_of_lines l1 ++ questions_of_lines l2.
Proof. unfold questions_of_lines. by rewrite List.filter_app, map_app. Qed.

Lemma is_question_line_strip l1 l2 :
  Py.strip l1 = Py.strip l2 → is_question_line l1 = is_question_line l2.
Proof. unfold is_question_line. by intros ->. Qed.

Lemma questions_of_lines_cr lines :
  questions_of_lines (map (λ l, l ++ [CR]) lines) = questions_of_lines lines.
Proof.
  unfold questions_of_lines. induction lines as [|l lines IH]; [done|].
  cbn [map List.filter].
  rewrite (is_question_line_strip (l ++ [CR]) l) by (by apply strip_snoc_space).
  destruct (is_question_line l); cbn [map]; rewrite IH; [|done].
  by rewrite strip_snoc_space.
Qed.

Lemma split_join sep lines :
  lines ≠ [] → Forall (λ l, ¬ In sep l) lines →
  Py.split sep (Py.join [sep] lines) = lines.
Proof.
  intros Hne Hall. induction Hall as [|l lines Hl Hall IH]; [done|].
  destruct lines as [|l' lines].
  - cbn [Py.join]. by apply split_none.
  - change (Py.join [sep] (l :: l' :: lines))
      with (l ++ sep :: Py.join [sep] (l' :: lines)).
    rewrite split_app, IH by done. by rewrite split_none.
Qed.

Lemma join_crlf lines :
  Py.join [CR; NL] lines
  = Py.join [NL] (match lines with
                  | [] => []
                  | _ => map (λ l, l ++ [CR]) (removelast lines) ++ [List.last lines []]
                  end).
Proof.
  induction lines as [|l [|l' lines] IH]; [done | done |].
  change (Py.join [CR; NL] (l :: l' :: lines))
    with (l ++ [CR; NL] ++ Py.join [CR; NL] (l' :: lines)).
  rewrite IH.
  change (removelast (l :: l' :: lines)) with (l :: removelast (l' :: lines)).
  change (List.last (l :: l' :: lines) []) with (List.last (l' :: lines) []).
  cbn [map app].
  destruct (map (λ l0, l0 ++ [CR]) (removelast (l' :: lines)) ++ [List.last (l' :: lines) []])
    as [|x xs] eqn:E; [by destruct (map _ _)|].
  change (Py.join [NL] ((l ++ [CR]) :: x :: xs))
    with ((l ++ [CR]) ++ [NL] ++ Py.join [NL] (x :: xs)).
  by rewrite <- !app_assoc.
Qed.
End QuestionFacts.

(** ** The cache key *)

Section KeyFacts.

Lemma lit_inj (s1 s2 : string) : lit s1 = lit s2 → s1 = s2.
Proof.
  unfold lit. intros Heq.
  rewrite <- (string_of_list_ascii_of_string s1), <- (string_of_list_ascii_of_string s2).
  f_equal. revert Heq.
  generalize (list_ascii_of_string s1) (list_ascii_of_string s2).
  induction l as [|a l IH]; intros [|b l']; cbn [map]; try done.
  intros [= Hab Hl]. f_equal; [|by apply IH].
  unfold ord in Hab. by rewrite <- (ascii_N_embedding a), Hab, ascii_N_embedding.
Qed.

Lemma to_int_not_nil (z : Z) : Z.to_int z ≠ Decimal.Pos Decimal.Nil ∧ Z.to_int z ≠ Decimal.Neg Decimal.Nil.
Proof.
  destruct z as [|p|p]; cbn; split; try done;
    intros [= Hp]; by apply (DecimalPos.Unsigned.to_uint_nonnil p).
Qed.

Lemma str_of_int_inj (z1 z2 : Z) : Json.str_of_int z1 = Json.str_of_int z2 → z1 = z2.
Proof.
  unfold Json.str_of_int. intros Heq%lit_inj.
  destruct (to_int_not_nil z1) as [H1 H1'], (to_int_not_nil z2) as [H2 H2'].
  assert (Hi : Some (Z.to_int z1) = Some (Z.to_int z2)).
  { rewrite <- (NilZero.isi (Z.to_int z1)), <- (NilZero.isi (Z.to_int z2)) by done.
    by rewrite Heq. }
  injection Hi as Hi.
  by rewrite <- (DecimalZ.of_to z1), <- (DecimalZ.of_to z2), Hi.
Qed.

End KeyFacts.

(** ** The answers and the normalization *)

Section MoreAnalyzeFacts.
Context `{Interpreter}.

Lemma render_answers_missing pre resp post key :
  Forall (λ r, is_Some (r !! lit "question") ∧ is_Some (r !! lit "answer")) pre →
  first_missing resp key →
  render_answers (pre ++ resp :: post) = Raised (KeyError key).
Proof.
  intros Hpre Hmiss. induction Hpre as [|r pre [[q Hq] [a Ha]] _ IH].
  - cbn [app render_answers]. unfold mbind, result_bind, render_answer, dict_item.
    destruct Hmiss as [[-> ->] | ([q ->] & -> & ->)]; done.
  - cbn [app render_answers]. unfold mbind, result_bind, render_answer, dict_item.
    fold (render_answers (pre ++ resp :: post)). by rewrite Hq, Ha, IH.
Qed.

Lemma render_answers_raises l e :
  render_answers l = Raised e → ∃ key, e = KeyError key.
Proof.
  revert e. induction l as [|resp l IH]; [done|].
  intros e. cbn [render_answers]. unfold mbind, result_bind, render_answer, dict_item.
  destruct (resp !! lit "question"); [|intros [= <-]; eauto].
  destruct (resp !! lit "answer"); [|intros [= <-]; eauto].
  destruct (render_answers l) as [xs|e'|]; [done | | done].
  intros [= <-]. by apply IH.
Qed.

Lemma normalize_fixed keys : ∀ d,
  (∀ k, k ∈ keys → ∃ x, Json.dict_get k d = Some x ∧ wrap_string x = x) →
  normalize keys (Json.Obj d) = Ok (Json.Obj d).
Proof.
  induction keys as [|key keys IH]; intros d Hall; [done|].
  cbn [normalize]. unfold mbind, result_bind. rewrite normalize_key_obj.
  destruct (Hall key) as (x & Hget & Hx); [by left|].
  rewrite Hget, Hx, (dict_set_same _ _ _ Hget).
  apply IH. intros k Hk. apply Hall. by right.
Qed.

Lemma normalize_ok_obj keys v v' :
  keys ≠ [] → normalize keys v = Ok v' →
  ∃ d d', v = Json.Obj d ∧ v' = Json.Obj d'
          ∧ map fst d' = map fst d
          ∧ ∀ k, k ∈ keys → ∃ x, Json.dict_get k d = Some x
                                 ∧ Json.dict_get k d' = Some (wrap_string x).
Proof.
  intros Hne Hn.
  destruct v as [| | | | |items|d];
    try (rewrite normalize_not_obj in Hn by done; discriminate Hn).
  destruct (keys_present_or_missing keys d) as [Hall | Hmiss].
  - destruct (normalize_obj keys d Hall) as (d' & Hd' & Hkeys & Hget).
    rewrite Hd' in Hn. injection Hn as <-.
    exists d, d'. split; [done | split; [done | split; [done|]]].
    intros k Hk. destruct (Hall k Hk) as [x Hx]. exists x. split; [done|].
    by rewrite Hget, bool_decide_eq_true_2, Hx.
  - destruct (normalize_missing keys d Hmiss) as (k & _ & Hk).
    rewrite Hk in Hn. discriminate Hn.
Qed.

End MoreAnalyzeFacts.

(** ** What the handlers leave in the cache and the log *)

Section ReachableFacts.
Context `{Interpreter}.

Lemma analyze_responses_log model responses w :
  ∃ evs, log (analyze_responses model responses w).2 = log w ++ evs.
Proof.
  rewrite analyze_responses_run.
  destruct (render_answers (answers responses)); cbn [snd logged log];
    [by eexists | by exists []; rewrite app_nil_r..].
Qed.

Lemma generate_questions_log now model req w :
  ∃ evs, log (generate_questions now model req w).2 = log w ++ evs.
Proof.
  destruct (cache_miss_or_hit now (cache_key (job_desc req)) (redis w))
    as [Hmiss | (c & text & Hhit)].
  - rewrite generate_questions_miss by done. cbn zeta.
    destruct (model _) as [text | msg]; [case_bool_decide|]; by eexists.
  - rewrite (generate_questions_hit _ _ _ _ _ _ Hhit). by eexists.
Qed.

(** What holds of an entry the handlers wrote. *)
Lemma written_entries w :
  reachable w →
  ∀ k v expires, redis w !! k = Some (v, expires) →
  ∃ jd text,
    k = cache_key jd ∧ v = Py.str_of_list (extract_questions text)
    ∧ valid_str text ∧ length (extract_questions text) = 5%nat
    ∧ In (ModelCall (generate_messages jd)) (log w)
    ∧ In (CacheSet k 3600 v) (log w).
Proof.
  induction 1 as [| now model req w _ IH Hm | model responses w _ IH]; intros k v e.
  - cbn [redis]. by rewrite lookup_empty.
  - destruct (generate_questions_log now model req w) as [evs Hlog].
    assert (Hold : redis w !! k = Some (v, e) →
              ∃ jd text,
                k = cache_key jd ∧ v = Py.str_of_list (extract_questions text)
                ∧ valid_str text ∧ length (extract_questions text) = 5%nat
                ∧ In (ModelCall (generate_messages jd))
                    (log (generate_questions now model req w).2)
                ∧ In (CacheSet k 3600 v) (log (generate_questions now model req w).2)).
    { intros (jd & text & ? & ? & ? & ? & ? & ?)%IH. exists jd, text.
      rewrite Hlog. repeat split; try done; apply in_or_app; by left. }
    clear Hlog.
    destruct (cache_miss_or_hit now (cache_key (job_desc req)) (redis w))
      as [Hmiss | (c & text & Hhit)].
    + revert Hold. rewrite generate_questions_miss by done. cbn zeta.
      destruct (model _) as [text | msg] eqn:Em; [|done].
      case_bool_decide as Hlen; [done|]. cbn [snd redis log]. intros Hold.
      rewrite lookup_insert. case_decide as Hk; [|done].
      intros [= <- <-]. subst k. exists (job_desc req), text.
      split; [done | split; [done | split; [by eapply Hm | split; [lia|]]]].
      split; apply in_or_app; right; cbn; auto.
    + revert Hold. by rewrite (generate_questions_hit _ _ _ _ _ _ Hhit).
  - destruct (analyze_responses_log model responses w) as [evs Hlog].
    rewrite analyze_responses_redis, Hlog.
    intros (jd & text & ? & ? & ? & ? & ? & ?)%IH. exists jd, text.
    repeat split; try done; apply in_or_app; by left.
Qed.

End ReachableFacts.

(** ** Where a decoded value ends *)

Section DecoderEnds.

Lemma skip_ws_suffix s : Json.skip_ws s `suffix_of` s.
Proof.
  induction s as [|c s IH]; simpl; [done|].
  destruct (Json.is_ws c); [by apply suffix_cons_r | done].
Qed.

Lemma skip_ws_nil s : Json.skip_ws s = [] → Forall (λ c, Json.is_ws c = true) s.
Proof.
  induction s as [|c s IH]; simpl; [done|].
  destruct (Json.is_ws c) eqn:Ec; [|done]. intros Hs. constructor; [done | by apply IH].
Qed.

Lemma closed_before_suffix s r : closed_before s r → r `suffix_of` s.
Proof. intros (c & Hs & _). etrans; [|exact Hs]. by apply suffix_cons_r. Qed.

Lemma closed_before_trans s t r :
  t `suffix_of` s → closed_before t r → closed_before s r.
Proof. intros Hts (c & Hs & Hc). exists c. split; [by etrans | done]. Qed.

Lemma scanstring_ends : ∀ n s v r,
  (length s ≤ n)%nat → Json.scanstring s = Some (v, r) →
  (Py.dquote :: r) `suffix_of` s.
Proof.
  induction n as [|n IH]; intros s v r Hn Hs.
  { destruct s; [done | simpl in Hn; lia]. }
  destruct s as [|c s1]; [done|].
  cbn [Json.scanstring] in Hs.
  assert (Hmore : ∀ x t v r, (length t ≤ n)%nat →
            match Json.scanstring t with
            | Some (v0, r0) => Some (x :: v0, r0)
            | None => None
            end = Some (v, r) → (Py.dquote :: r) `suffix_of` t).
  { intros x t v0 r0 Ht Hm. destruct (Json.scanstring t) as [[v1 r1]|] eqn:Et; [|done].
    injection Hm as <- <-. by eapply IH. }
  cbn [length] in *.
  destruct (N.eqb_spec c Py.dquote) as [-> | _]; [by injection Hs as <- <-|].
  destruct (c =? Py.backslash).
  - destruct s1 as [|e s2]; [done|]. cbn [length] in *.
    destruct (e =? ord "u").
    + destruct s2 as [|h1 [|h2 [|h3 [|h4 s3]]]]; try done. cbn [length] in *.
      destruct (Py.hexnum 0 [h1; h2; h3; h4]) as [m|]; [|done].
      destruct s3 as [|b [|u [|g1 [|g2 [|g3 [|g4 s4]]]]]];
        try (apply Hmore in Hs; [solve [repeat (first [assumption | apply suffix_cons_r])] | cbn [length] in *; lia]).
      cbn [length] in *.
      destruct (Json.is_high_surrogate m && (b =? Py.backslash) && (u =? ord "u"));
        [| apply Hmore in Hs; [solve [repeat (first [assumption | apply suffix_cons_r])] | cbn [length] in *; lia]].
      destruct (Py.hexnum 0 [g1; g2; g3; g4]) as [m'|]; [|done].
      destruct (Json.is_low_surrogate m');
        (apply Hmore in Hs; [solve [repeat (first [assumption | apply suffix_cons_r])] | cbn [length] in *; lia]).
    + destruct (Json.simple_escape e); [|done].
      apply Hmore in Hs; [solve [repeat (first [assumption | apply suffix_cons_r])] | lia].
  - destruct (c <? 32); [done|].
    apply Hmore in Hs; [solve [repeat (first [assumption | apply suffix_cons_r])] | lia].
Qed.

Lemma span_digits_spec s :
  s = (Json.span_digits s).1 ++ (Json.span_digits s).2
  ∧ Forall (λ c, Py.ascii_isdigit c = true) (Json.span_digits s).1.
Proof.
  induction s as [|c s [IH1 IH2]]; simpl; [done|].
  destruct (Py.ascii_isdigit c) eqn:Ec; [|done].
  destruct (Json.span_digits s) as [d r]. simpl in *. split; [by f_equal | by constructor].
Qed.

Lemma digits_before d r :
  d ≠ [] → Forall (λ c, Py.ascii_isdigit c = true) d → digit_before (d ++ r) r.
Proof.
  intros Hd Hall. destruct (exists_last Hd) as (d' & c & ->).
  apply Forall_app in Hall as [_ Hc]. rewrite Forall_singleton in Hc.
  exists c. split; [|done]. exists d'. by rewrite <- app_assoc.
Qed.

Lemma digit_before_suffix s r : digit_before s r → r `suffix_of` s.
Proof. intros (c & Hs & _). etrans; [|exact Hs]. by apply suffix_cons_r. Qed.

Lemma digit_before_trans s t r :
  t `suffix_of` s → digit_before t r → digit_before s r.
Proof. intros Hts (c & Hs & Hc). exists c. split; [by etrans | done]. Qed.

Lemma match_number_ends s v r :
  Json.match_number s = Json.Scanned v r → digit_before s r.
Proof.
  unfold Json.match_number.
  set (p := match s with
            | c :: s' => if c =? ord "-" then (true, s') else (false, s)
            | [] => (false, s)
            end).
  assert (Hp : p.2 `suffix_of` s).
  { subst p. destruct s as [|c s']; [done|].
    destruct (c =? ord "-"); simpl; [by apply suffix_cons_r | done]. }
  destruct p as [neg s0]. cbn [snd] in Hp.
  destruct s0 as [|c s1]; [done|].
  set (ip := if c =? ord "0" then Some ([c], s1)
             else if Py.ascii_isdigit c
                  then let '(d, r) := Json.span_digits s1 in Some (c :: d, r)
                  else None).
  assert (Hip : ∀ ds r0, ip = Some (ds, r0) → digit_before (c :: s1) r0).
  { subst ip. intros ds r0. destruct (N.eqb_spec c (ord "0")) as [-> | _].
    - intros [= <- <-]. by exists (ord "0").
    - destruct (Py.ascii_isdigit c) eqn:Ec; [|done].
      destruct (span_digits_spec s1) as [Hs1 Hd].
      destruct (Json.span_digits s1) as [d r']. cbn [fst snd] in *.
      intros [= <- <-]. rewrite Hs1.
      apply (digits_before (c :: d) r'); [done | by constructor]. }
  destruct ip as [[ds r0]|]; [|done]. specialize (Hip _ _ eq_refl).
  apply (digit_before_trans _ _ _ Hp) in Hip. clear Hp.
  set (fr := match r0 with
             | dot :: d :: r' =>
                 if (dot =? ord ".") && Py.ascii_isdigit d
                 then let '(fd, r'') := Json.span_digits (d :: r') in (dot :: fd, r'')
                 else ([], r0)
             | _ => ([], r0)
             end).
  assert (Hfr : fr.2 = r0 ∨ digit_before r0 fr.2).
  { subst fr. destruct r0 as [|dot [|d r']]; try by left.
    destruct ((dot =? ord ".") && Py.ascii_isdigit d) eqn:Ed; [|by left].
    apply andb_true_iff in Ed as [_ Ed]. right.
    destruct (span_digits_spec (d :: r')) as [Hs1 Hd]. revert Hs1 Hd.
    cbn [Json.span_digits]. rewrite Ed.
    destruct (Json.span_digits r') as [fd r'']. cbn [fst snd]. intros Hs1 Hd.
    apply (digit_before_trans _ (d :: r')); [by apply suffix_cons_r|].
    rewrite Hs1. by apply digits_before. }
  assert (Hr1 : digit_before s fr.2).
  { destruct Hfr as [-> | Hfr]; [done|].
    eapply digit_before_trans; [|exact Hfr]. by apply digit_before_suffix. }
  clear Hfr Hip. destruct fr as [frac r1]. cbn [snd] in Hr1.
  set (ex := match r1 with
             | e :: r' =>
                 if (e =? ord "e") || (e =? ord "E") then
                   let '(sign, r'') :=
                     match r' with
                     | sg :: t => if (sg =? ord "-") || (sg =? ord "+")
                                  then ([sg], t) else ([], r')
                     | [] => ([], r')
                     end in
                   match Json.span_digits r'' with
                   | ([], _) => ([], r1)
                   | (ed, r3) => (e :: sign ++ ed, r3)
                   end
                 else ([], r1)
             | [] => ([], r1)
             end).
  assert (Hex : ex.2 = r1 ∨ digit_before r1 ex.2).
  { subst ex. destruct r1 as [|e r']; [by left|].
    destruct ((e =? ord "e") || (e =? ord "E")); [|by left].
    set (sg := match r' with
               | sg :: t => if (sg =? ord "-") || (sg =? ord "+")
                            then ([sg], t) else ([], r')
               | [] => ([], r')
               end).
    assert (Hsg : sg.2 `suffix_of` r').
    { subst sg. destruct r' as [|x t]; [done|].
      destruct ((x =? ord "-") || (x =? ord "+")); simpl; [by apply suffix_cons_r | done]. }
    destruct sg as [sign r'']. cbn [snd] in Hsg.
    destruct (span_digits_spec r'') as [Hs1 Hd].
    destruct (Json.span_digits r'') as [[|d0 ed] r3]; [by left|]. cbn [fst snd] in *.
    right. apply (digit_before_trans _ r''); [by apply suffix_cons_r|].
    rewrite Hs1. by apply digits_before. }
  assert (Hr2 : digit_before s ex.2).
  { destruct Hex as [-> | Hex]; [done|].
    eapply digit_before_trans; [|exact Hex]. by apply digit_before_suffix. }
  clear Hex Hr1. destruct ex as [exp r2]. cbn [snd] in Hr2.
  by destruct frac, exp; intros [= _ <-].
Qed.

Lemma parse_items_ends rec : closes rec → ∀ n s vs r,
  Json.parse_items rec n s = Json.Scanned vs r → (ord "]" :: r) `suffix_of` s.
Proof.
  intros Hc. induction n as [|n IH]; intros s vs r; [done|].
  cbn [Json.parse_items].
  destruct (rec s) as [v r0| |] eqn:Er; [|done..].
  apply Hc, closed_before_suffix in Er. pose proof (skip_ws_suffix r0) as Hw.
  destruct (Json.skip_ws r0) as [|c r'] eqn:Ew; [done|].
  destruct (N.eqb_spec c (ord "]")) as [-> | _]; [intros [= _ <-]; by etrans|].
  destruct (c =? ord ","); [|done].
  destruct (Json.parse_items rec n (Json.skip_ws r')) as [vs' r''| |] eqn:Ep; [|done..].
  apply IH in Ep. intros [= _ <-].
  etrans; [exact Ep|]. etrans; [apply skip_ws_suffix|].
  etrans; [|exact Er]. etrans; [|exact Hw]. by apply suffix_cons_r.
Qed.

Lemma parse_members_ends rec : closes rec → ∀ n s kvs r,
  Json.parse_members rec n s = Json.Scanned kvs r → (ord "}" :: r) `suffix_of` s.
Proof.
  intros Hc. induction n as [|n IH]; intros s kvs r; [done|].
  cbn [Json.parse_members].
  destruct s as [|q s1]; [done|].
  destruct (q =? Py.dquote); [|done].
  destruct (Json.scanstring s1) as [[k r0]|] eqn:Es; [|done].
  apply (scanstring_ends _ _ _ _ (Nat.le_refl _)) in Es.
  assert (Hr0 : r0 `suffix_of` q :: s1).
  { apply suffix_cons_r. etrans; [|exact Es]. by apply suffix_cons_r. }
  clear Es. pose proof (skip_ws_suffix r0) as Hw.
  destruct (Json.skip_ws r0) as [|colon r1] eqn:Ew; [done|].
  destruct (colon =? ord ":"); [|done].
  assert (Hr1 : Json.skip_ws r1 `suffix_of` q :: s1).
  { etrans; [apply skip_ws_suffix|]. etrans; [|exact Hr0]. etrans; [|exact Hw].
    by apply suffix_cons_r. }
  clear Hw Hr0.
  destruct (rec (Json.skip_ws r1)) as [v r2| |] eqn:Er; [|done..].
  apply Hc, closed_before_suffix in Er. pose proof (skip_ws_suffix r2) as Hw2.
  destruct (Json.skip_ws r2) as [|c r3] eqn:Ew2; [done|].
  assert (Hr3 : (c :: r3) `suffix_of` q :: s1).
  { etrans; [exact Hw2|]. by etrans. }
  destruct (N.eqb_spec c (ord "}")) as [-> | _]; [by intros [= _ <-]|].
  destruct (c =? ord ","); [|done].
  destruct (Json.parse_members rec n (Json.skip_ws r3)) as [kvs' r4| |] eqn:Ep; [|done..].
  apply IH in Ep. intros [= _ <-].
  etrans; [exact Ep|]. etrans; [apply skip_ws_suffix|].
  etrans; [|exact Hr3]. by apply suffix_cons_r.
Qed.

Lemma startswith_split p s : Py.startswith p s = true → s = p ++ skipn (length p) s.
Proof.
  revert s. induction p as [|a p IH]; intros [|b s]; simpl; try done.
  intros [->%N.eqb_eq Hp]%andb_true_iff. f_equal. by apply IH.
Qed.

Lemma keyword_ends w v s out :
  List.last (lit w) backtick ≠ backtick → Json.keyword w v s = Some out →
  ∃ r, out = Json.Scanned v r ∧ closed_before s r.
Proof.
  unfold Json.keyword. intros Hw.
  destruct (Py.startswith (lit w) s) eqn:Hs; [|done].
  intros [= <-]. eexists. split; [done|].
  apply startswith_split in Hs. rewrite length_lit in Hs.
  assert (Hne : lit w ≠ []) by (by destruct (lit w)).
  rewrite (app_removelast_last backtick Hne) in Hs.
  exists (List.last (lit w) backtick). split; [|done].
  exists (removelast (lit w)). by rewrite <- app_assoc in Hs.
Qed.

Lemma scan_value_closes rec : closes rec → closes (Json.scan_value rec).
Proof.
  intros Hc s v r. unfold Json.scan_value.
  destruct s as [|c s1]; [done|].
  destruct (c =? Py.dquote).
  { destruct (Json.scanstring s1) as [[x r0]|] eqn:Es; [|done].
    apply (scanstring_ends _ _ _ _ (Nat.le_refl _)) in Es.
    intros [= _ <-]. exists Py.dquote. split; [by apply suffix_cons_r | done]. }
  pose proof (skip_ws_suffix s1) as Hw.
  destruct (c =? ord "{").
  { destruct (Json.skip_ws s1) as [|c2 r0] eqn:Ew; [done|].
    destruct (N.eqb_spec c2 (ord "}")) as [-> | _].
    { intros [= _ <-]. exists (ord "}"). split; [by apply suffix_cons_r | done]. }
    destruct (Json.parse_members rec (length s1) (c2 :: r0)) as [kvs r'| |] eqn:Ep; [|done..].
    apply (parse_members_ends rec Hc) in Ep. intros [= _ <-].
    exists (ord "}"). split; [|done]. apply suffix_cons_r. by etrans. }
  destruct (c =? ord "[").
  { destruct (Json.skip_ws s1) as [|c2 r0] eqn:Ew; [done|].
    destruct (N.eqb_spec c2 (ord "]")) as [-> | _].
    { intros [= _ <-]. exists (ord "]"). split; [by apply suffix_cons_r | done]. }
    destruct (Json.parse_items rec (length s1) (c2 :: r0)) as [vs r'| |] eqn:Ep; [|done..].
    apply (parse_items_ends rec Hc) in Ep. intros [= _ <-].
    exists (ord "]"). split; [|done]. apply suffix_cons_r. by etrans. }
  repeat match goal with
  | |- context [Json.keyword ?w ?x ?t] =>
      let E := fresh in
      destruct (Json.keyword w x t) as [out|] eqn:E;
      [ apply keyword_ends in E as (r' & -> & ?); [by intros [= _ <-] | done] |]
  end.
  intros (d & Hd & Hdigit)%match_number_ends. exists d. split; [done|].
  by intros ->.
Qed.

Lemma scan_once_closes fuel : closes (Json.scan_once fuel).
Proof.
  induction fuel as [|fuel IH]; [done|]. by apply scan_value_closes.
Qed.

(** No text that ends in a backtick is valid JSON. *)
Lemma loads_backtick text : Json.loads (text ++ [backtick]) = None.
Proof.
  destruct (Json.loads (text ++ [backtick])) as [v|] eqn:Hl; [exfalso | done].
  revert Hl. unfold Json.loads.
  destruct (Py.startswith _ _); [done|].
  destruct (Json.scan_once _ _) as [v' r| |] eqn:Es; [|done..].
  apply scan_once_closes in Es as (c & Hs & Hc).
  destruct (Json.skip_ws r) eqn:Er; [|done]. intros _.
  apply skip_ws_nil in Er.
  assert (Hs' : (c :: r) `suffix_of` text ++ [backtick])
    by (etrans; [exact Hs | apply skip_ws_suffix]).
  destruct Hs' as [pre Hpre].
  destruct (decide (r = [])) as [-> | Hr].
  - apply app_inj_tail in Hpre as [_ Hx]. by apply Hc.
  - destruct (exists_last Hr) as (r' & x & ->).
    apply Forall_app in Er as [_ Hx]. rewrite Forall_singleton in Hx.
    change (pre ++ c :: r' ++ [x]) with (pre ++ (c :: r') ++ [x]) in Hpre.
    rewrite app_assoc in Hpre. apply app_inj_tail in Hpre as [_ <-]. done.
Qed.
End DecoderEnds.

(** ** A fence after white space *)

Section FenceAfterSpace.

Lemma scan_once_backtick fuel rest :
  Json.scan_once (S fuel) (backtick :: rest) = Json.Invalid.
Proof. reflexivity. Qed.

Lemma skip_ws_app ws s :
  Forall (λ c, Json.is_ws c = true) ws → Json.skip_ws (ws ++ s) = Json.skip_ws s.
Proof. induction 1 as [|c ws Hc _ IH]; [done|]. cbn [app Json.skip_ws]. by rewrite Hc. Qed.

Lemma loads_fence_after_space ws fenced :
  Forall (λ c, Json.is_ws c = true) ws → Py.startswith fence fenced = true →
  Json.loads (ws ++ fenced) = None.
Proof.
  intros Hws Hf. destruct fenced as [|c fenced]; [done|].
  change (Py.startswith fence (c :: fenced))
    with ((96 =? c) && Py.startswith (lit "``") fenced) in Hf.
  apply andb_true_iff in Hf as [<-%N.eqb_eq _].
  unfold Json.loads. destruct (Py.startswith _ _); [done|].
  rewrite skip_ws_app by done. cbn [Json.skip_ws].
  change (Json.is_ws 96) with false. cbv iota.
  by rewrite (scan_once_backtick _ fenced).
Qed.
End FenceAfterSpace.

(** * Further properties of the handlers *)

(** X1.  The question filter of lines 149-150 works line by line: the
    questions of two texts put on consecutive lines are the questions of the
    first followed by the questions of the second.  The order of the reply is
    kept, and what one line holds never changes what is taken from
    another. *)
Theorem extract_questions_over_lines `{Interpreter} (a b : pystr) :
  extract_questions (a ++ [NL] ++ b) = extract_questions a ++ extract_questions b.
Proof.
  rewrite !extract_questions_split. cbn [app].
  by rewrite split_app, questions_of_lines_app.
Qed.

(** X2.  A reply whose lines end in carriage return and line feed gives the
    same questions as the reply with plain line feeds: [split("\n")] leaves
    the carriage return on the line and [strip] removes it. *)
Theorem extract_questions_crlf `{Interpreter} (lines : list pystr) :
  Forall (λ l, ¬ In NL l) lines →
  extract_questions (Py.join [CR; NL] lines) = extract_questions (Py.join [NL] lines).
Proof.
  intros Hall. destruct (decide (lines = [])) as [-> | Hne]; [done|].
  rewrite join_crlf, !extract_questions_split.
  destruct lines as [|l0 lines0] eqn:El; [done|]. rewrite <- El in *.
  assert (Hlast : lines = removelast lines ++ [List.last lines []])
    by (by apply app_removelast_last).
  rewrite Hlast in Hall. apply Forall_app in Hall as [Hinit Hl].
  rewrite split_join.
  - rewrite (split_join NL lines Hne) by (rewrite Hlast; by apply Forall_app).
    rewrite questions_of_lines_app, questions_of_lines_cr, <- questions_of_lines_app.
    by rewrite <- Hlast.
  - by destruct (map _ _).
  - apply Forall_app. split; [|done].
    apply List.Forall_forall. intros x (l & <- & Hin)%in_map_iff.
    rewrite List.Forall_forall in Hinit. intros [Hx | [Hx | []]]%in_app_or.
    + by apply (Hinit l).
    + discriminate Hx.
Qed.

Lemma extract_questions_crlf_witness :
  Forall (λ l, ¬ In NL l) [lit "1. What is REST?"; lit "2. Why?"]
  ∧ @extract_questions ascii_interpreter
      (Py.join [CR; NL] [lit "1. What is REST?"; lit "2. Why?"])
    = [lit "1. What is REST?"; lit "2. Why?"].
Proof.
  assert (Hall : Forall (λ l, ¬ In NL l) [lit "1. What is REST?"; lit "2. Why?"]).
  { repeat constructor; vm_compute; intuition discriminate. }
  split; [exact Hall|].
  rewrite (@extract_questions_crlf ascii_interpreter _ Hall). vm_compute. reflexivity.
Defined.

(** X3.  Every question the filter returns is stripped (stripping it again
    changes nothing), is not empty and holds no line feed, whatever the reply
    was. *)
Theorem extracted_questions_are_clean `{Interpreter} (content : pystr) :
  Forall (λ q, Py.strip q = q ∧ ¬ In NL q ∧ q ≠ []) (extract_questions content).
Proof.
  apply List.Forall_forall. intros q (line & Hin & Hq & ->)%in_extract_questions.
  repeat split.
  - apply strip_idem.
  - intros Hnl%strip_incl. pose proof (split_no_sep NL content) as Hs.
    rewrite List.Forall_forall in Hs. by apply (Hs line).
  - apply is_question_line_iff in Hq as (c & t & -> & _). done.
Qed.

(** X4.  What line 160 stores is read back by lines 125-127: for every list
    of Python strings, of any length and with any characters (quotes,
    backslashes, control characters), [str] of the list is a non-empty text,
    so that line 125 takes it as a hit, and [eval] of it is the list. *)
Theorem cached_list_round_trip `{Interpreter} (questions : list pystr) :
  Forall valid_str questions →
  Py.str_of_list questions ≠ []
  ∧ py_eval (Py.str_of_list questions) = Ok questions.
Proof.
  intros Hv. split; [done|]. unfold py_eval. by rewrite eval_str_of_list.
Qed.

Lemma cached_list_round_trip_witness :
  Forall valid_str quoted_questions
  ∧ @py_eval ascii_interpreter (@Py.str_of_list ascii_interpreter quoted_questions)
    = Ok quoted_questions.
Proof.
  assert (Hv : Forall valid_str quoted_questions).
  { unfold valid_str. repeat constructor; vm_compute; discriminate. }
  split; [exact Hv|].
  exact (proj2 (@cached_list_round_trip ascii_interpreter quoted_questions Hv)).
Defined.

(** X5.  What one run of [generate_questions] does to the cache and to its
    collaborators, in a world reached from the empty cache through the two
    handlers.  On a hit it reads the cache once, answers with the cached
    questions and does nothing else: no model call, no write, the expiry of
    the entry is not moved.  On a miss it calls the model once; either it
    then raises a 500 error and leaves the cache as it was, or it answers
    with five questions and has stored [str] of them under the request's key
    for 3600 seconds.  In every case the entries under other keys are
    untouched. *)
Theorem generate_questions_effects `{Interpreter} now model req w :
  reachable w →
  let key := cache_key (job_desc req) in
  let msgs := generate_messages (job_desc req) in
  let out := generate_questions now model req w in
  ((∃ qs, redis_lookup now key (redis w) = Some (Py.str_of_list qs)
      ∧ out = (Ok (Questions qs), logged w [CacheGet key]))
   ∨ (cache_miss now key (redis w)
      ∧ out.2 = logged w [CacheGet key; ModelCall msgs]
      ∧ ∃ d, out.1 = Raised (HTTPException 500 d))
   ∨ (cache_miss now key (redis w)
      ∧ ∃ qs, out.1 = Ok (Questions qs) ∧ length qs = 5%nat
        ∧ redis out.2 = <[key := (Py.str_of_list qs, (now + 3600)%Z)]> (redis w)
        ∧ log out.2 = log w ++ [CacheGet key; ModelCall msgs;
                                CacheSet key 3600 (Py.str_of_list qs)]))
  ∧ (∀ k, k ≠ key → redis out.2 !! k = redis w !! k).
Proof.
  intros Hw key msgs out. subst out.
  destruct (cache_miss_or_hit now key (redis w)) as [Hmiss | (c & text & Hhit)].
  - rewrite generate_questions_miss by done. cbn zeta. fold key msgs.
    destruct (model msgs) as [text | msg].
    + case_bool_decide as Hlen.
      * split; [right; left; eauto | done].
      * split.
        -- right; right. split; [done|]. exists (extract_questions text).
           repeat split. cbn [fst]. lia.
        -- intros k Hk. cbn [snd redis]. by rewrite lookup_insert_ne.
    + split; [right; left; eauto | done].
  - rewrite (generate_questions_hit _ _ _ _ _ _ Hhit). fold key.
    destruct (cached_value_evaluates now key (redis w) (c :: text))
      as (qs & Hv & _ & Hev); [by apply reachable_cache_inv | done |].
    rewrite Hev. split; [|done]. left. exists qs. by rewrite <- Hv.
Qed.

Lemma generate_questions_effects_witness :
  @reachable ascii_interpreter
    (@generate_questions ascii_interpreter 100 five_line_model backend_request
       empty_world).2
  ∧ ∀ k, k ≠ @cache_key ascii_interpreter (job_desc backend_request) →
      redis (@generate_questions ascii_interpreter 200 failing_model backend_request
               (@generate_questions ascii_interpreter 100 five_line_model
                  backend_request empty_world).2).2 !! k
      = redis (@generate_questions ascii_interpreter 100 five_line_model
                 backend_request empty_world).2 !! k.
Proof.
  assert (Hw : @reachable ascii_interpreter
                 (@generate_questions ascii_interpreter 100 five_line_model
                    backend_request empty_world).2)
    by (apply reach_generate; [constructor | exact five_line_model_valid]).
  split; [exact Hw|].
  exact (proj2 (@generate_questions_effects ascii_interpreter 200 failing_model
                  backend_request _ Hw)).
Defined.

(** X6.  An entry whose expiry instant has passed is not used: a request
    for its key at a later instant finds nothing in the cache and calls the
    model again; when the new reply holds five question lines, these are the
    answer, and they replace the old entry with an expiry that lies later. *)
Theorem cache_entry_expires `{Interpreter} now model req w value expires :
  redis w !! cache_key (job_desc req) = Some (value, expires) →
  (expires < now)%Z →
  let key := cache_key (job_desc req) in
  let msgs := generate_messages (job_desc req) in
  let out := generate_questions now model req w in
  cache_miss now key (redis w)
  ∧ (∃ rest, log out.2 = log w ++ [CacheGet key; ModelCall msgs] ++ rest)
  ∧ (∀ text, model msgs = Content text → length (extract_questions text) = 5%nat →
       out.1 = Ok (Questions (extract_questions text))
       ∧ ∃ expires', redis out.2 !! key
                     = Some (Py.str_of_list (extract_questions text), expires')
                     ∧ (expires < expires')%Z).
Proof.
  intros Hk Hlate key msgs out. subst out. fold key in Hk.
  assert (Hmiss : cache_miss now key (redis w)).
  { left. unfold redis_lookup. rewrite Hk.
    destruct (Z.leb_spec now expires); [lia | done]. }
  split; [done|].
  rewrite generate_questions_miss by done. cbn zeta. fold key msgs.
  split.
  - destruct (model msgs) as [text | m]; [case_bool_decide|]; cbn [snd log logged];
      [by exists [] | by eexists [_] | by exists []].
  - intros text -> Hlen. rewrite bool_decide_eq_false_2 by lia.
    split; [done|]. exists (now + 3600)%Z. cbn [snd redis].
    split; [apply lookup_insert_eq | lia].
Qed.

Lemma cache_entry_expires_witness :
  redis (@generate_questions ascii_interpreter 100 five_line_model backend_request
           empty_world).2
  !! @cache_key ascii_interpreter (job_desc backend_request)
  = Some (@Py.str_of_list ascii_interpreter
            (@extract_questions ascii_interpreter five_lines), 3700%Z)
  ∧ (3700 < 3701)%Z
  ∧ cache_miss 3701 (@cache_key ascii_interpreter (job_desc backend_request))
      (redis (@generate_questions ascii_interpreter 100 five_line_model
                backend_request empty_world).2).
Proof.
  assert (Hk : redis (@generate_questions ascii_interpreter 100 five_line_model
                        backend_request empty_world).2
               !! @cache_key ascii_interpreter (job_desc backend_request)
               = Some (@Py.str_of_list ascii_interpreter
                         (@extract_questions ascii_interpreter five_lines), 3700%Z))
    by (vm_compute; reflexivity).
  assert (Hlate : (3700 < 3701)%Z) by lia.
  split; [exact Hk | split; [exact Hlate|]].
  exact (proj1 (@cache_entry_expires ascii_interpreter 3701 five_line_model
                  backend_request _ _ _ Hk Hlate)).
Defined.

(** X7.  When nothing is cached and the model call of [generate_questions]
    raises, the handler raises a 500 error whose detail is the text of that
    error, after one cache read and the one call; nothing is written to the
    cache. *)
Theorem generate_questions_model_failure `{Interpreter} now model req w msg :
  cache_miss now (cache_key (job_desc req)) (redis w) →
  model (generate_messages (job_desc req)) = ApiError msg →
  generate_questions now model req w
  = (Raised (HTTPException 500 (StrOf (OpenAIError msg))),
     logged w [CacheGet (cache_key (job_desc req));
               ModelCall (generate_messages (job_desc req))]).
Proof.
  intros Hmiss Hm. rewrite generate_questions_miss by done.
  cbn zeta. by rewrite Hm.
Qed.

Lemma generate_questions_model_failure_witness :
  cache_miss 0 (@cache_key ascii_interpreter (job_desc backend_request)) (redis empty_world)
  ∧ failing_model (generate_messages (job_desc backend_request))
    = ApiError (lit "Rate limit reached")
  ∧ respond (@generate_questions ascii_interpreter 0 failing_model backend_request
               empty_world).1
    = HttpError 500 (StrOf (OpenAIError (lit "Rate limit reached"))).
Proof.
  assert (Hmiss : cache_miss 0 (@cache_key ascii_interpreter (job_desc backend_request))
                    (redis empty_world)) by (left; vm_compute; reflexivity).
  split; [exact Hmiss | split; [reflexivity|]].
  by rewrite (@generate_questions_model_failure ascii_interpreter 0 failing_model
                backend_request empty_world (lit "Rate limit reached") Hmiss eq_refl).
Defined.

(** X8.  Two job descriptions have the same cache key exactly when the
    hashes of their title followed by their description are equal: the
    decimal text of the hash in the key is read back without loss, so
    requests share an entry when their hashes collide and never
    otherwise. *)
Theorem cache_key_shared_iff_hash `{Interpreter} (jd1 jd2 : JobDescription) :
  cache_key jd1 = cache_key jd2
  ↔ str_hash (title jd1 ++ description jd1) = str_hash (title jd2 ++ description jd2).
Proof.
  unfold cache_key. split.
  - intros Heq%app_inv_head. by apply str_of_int_inj.
  - by intros ->.
Qed.

(** X9.  In a world reached from the empty cache through the two handlers,
    with models that return Python strings, every cache entry was written by
    line 160: its key is the key of some job description for which the model
    was called, its value is [str] of exactly five questions, each of which
    passes the question filter, [eval] of the value gives these five
    questions back, and the write is in the log with a lifetime of 3600
    seconds. *)
Theorem cache_holds_only_question_lists `{Interpreter} w key value expires :
  reachable w →
  redis w !! key = Some (value, expires) →
  ∃ jd questions,
    key = cache_key jd
    ∧ value = Py.str_of_list questions
    ∧ length questions = 5%nat
    ∧ py_eval value = Ok questions
    ∧ Forall is_question_line questions
    ∧ In (ModelCall (generate_messages jd)) (log w)
    ∧ In (CacheSet key 3600 value) (log w).
Proof.
  intros Hw (jd & text & -> & -> & Hv & Hlen & Hcall & Hset)%written_entries; [|done].
  exists jd, (extract_questions text).
  split; [done | split; [done | split; [done|]]].
  split; [|split; [|done]].
  - unfold py_eval. by rewrite eval_str_of_list by by apply extract_questions_valid.
  - apply List.Forall_forall. intros q (line & Hin & Hq & ->)%in_extract_questions.
    apply Is_true_true.
    by rewrite (is_question_line_strip (Py.strip line) line) by apply strip_idem.
Qed.

Lemma cache_holds_only_question_lists_witness :
  @reachable ascii_interpreter
    (@generate_questions ascii_interpreter 100 five_line_model backend_request
       empty_world).2
  ∧ redis (@generate_questions ascii_interpreter 100 five_line_model backend_request
             empty_world).2
    !! @cache_key ascii_interpreter (job_desc backend_request)
    = Some (@Py.str_of_list ascii_interpreter
              (@extract_questions ascii_interpreter five_lines), 3700%Z)
  ∧ ∃ jd questions,
      @cache_key ascii_interpreter (job_desc backend_request)
      = @cache_key ascii_interpreter jd
      ∧ length questions = 5%nat
      ∧ Forall (@is_question_line ascii_interpreter) questions.
Proof.
  assert (Hw : @reachable ascii_interpreter
                 (@generate_questions ascii_interpreter 100 five_line_model
                    backend_request empty_world).2)
    by (apply reach_generate; [constructor | exact five_line_model_valid]).
  assert (Hk : redis (@generate_questions ascii_interpreter 100 five_line_model
                        backend_request empty_world).2
               !! @cache_key ascii_interpreter (job_desc backend_request)
               = Some (@Py.str_of_list ascii_interpreter
                         (@extract_questions ascii_interpreter five_lines), 3700%Z))
    by (vm_compute; reflexivity).
  split; [exact Hw | split; [exact Hk|]].
  destruct (@cache_holds_only_question_lists ascii_interpreter _ _ _ _ Hw Hk)
    as (jd & questions & Hkey & _ & Hlen & _ & Hq & _).
  by exists jd, questions.
Defined.

(** X10.  When one of the answers sent to [analyze_responses] lacks the key
    ["question"] or the key ["answer"], the handler raises a 500 error whose
    detail is the text of the [KeyError] of the first key that is missing, in
    the order of the list and with ["question"] read before ["answer"].  The
    model is not called and nothing else happens. *)
Theorem analyze_responses_missing_key `{Interpreter} model responses pre resp post key w :
  answers responses = pre ++ resp :: post →
  Forall (λ r, is_Some (r !! lit "question") ∧ is_Some (r !! lit "answer")) pre →
  first_missing resp key →
  analyze_responses model responses w
  = (Raised (HTTPException 500 (StrOf (KeyError key))), w).
Proof.
  intros Ha Hpre Hmiss.
  by rewrite analyze_responses_run, Ha, (render_answers_missing _ _ _ key).
Qed.

Lemma analyze_responses_missing_key_witness :
  answers missing_answer = [rest_answer] ++ question_only :: []
  ∧ Forall (λ r : gmap pystr pystr,
              is_Some (r !! lit "question") ∧ is_Some (r !! lit "answer"))
      [rest_answer]
  ∧ first_missing question_only (lit "answer")
  ∧ @analyze_responses ascii_interpreter five_line_model missing_answer empty_world
    = (Raised (HTTPException 500 (StrOf (KeyError (lit "answer")))), empty_world).
Proof.
  assert (Hpre : Forall (λ r : gmap pystr pystr,
                           is_Some (r !! lit "question") ∧ is_Some (r !! lit "answer"))
                   [rest_answer]).
  { repeat constructor; vm_compute; eauto. }
  assert (Hmiss : first_missing question_only (lit "answer")).
  { right. split; [vm_compute; eauto | split; [vm_compute|]; reflexivity]. }
  split; [reflexivity | split; [exact Hpre | split; [exact Hmiss|]]].
  exact (@analyze_responses_missing_key ascii_interpreter five_line_model missing_answer
           [rest_answer] question_only [] (lit "answer") empty_world eq_refl Hpre Hmiss).
Defined.

(** X11.  When the model call of [analyze_responses] raises, the handler
    raises a 500 error whose detail is the text of that error, after that one
    call. *)
Theorem analyze_responses_model_failure `{Interpreter} model responses rendered w msg :
  render_answers (answers responses) = Ok rendered →
  model (analyze_messages rendered) = ApiError msg →
  analyze_responses model responses w
  = (Raised (HTTPException 500 (StrOf (OpenAIError msg))),
     logged w [ModelCall (analyze_messages rendered)]).
Proof.
  intros Hr Hm. by rewrite analyze_responses_run, Hr, Hm.
Qed.

Lemma analyze_responses_model_failure_witness :
  render_answers (answers two_answers) = Ok (map render_pair two_pairs)
  ∧ failing_model (analyze_messages (map render_pair two_pairs))
    = ApiError (lit "Rate limit reached")
  ∧ respond (@analyze_responses ascii_interpreter failing_model two_answers empty_world).1
    = HttpError 500 (StrOf (OpenAIError (lit "Rate limit reached"))).
Proof.
  assert (Hr : render_answers (answers two_answers) = Ok (map render_pair two_pairs))
    by (vm_compute; reflexivity).
  split; [exact Hr | split; [reflexivity|]].
  by rewrite (@analyze_responses_model_failure ascii_interpreter failing_model
                two_answers _ empty_world (lit "Rate limit reached") Hr eq_refl).
Defined.

(** X12.  [analyze_responses] never reads or writes the cache, and it calls
    the model at most once: either the prompt could be built and the run is
    that one model call, or an answer lacks a key and the run ends with the
    500 error of that [KeyError] before anything was called. *)
Theorem analyze_responses_effects `{Interpreter} model responses w :
  let out := analyze_responses model responses w in
  redis out.2 = redis w
  ∧ ((∃ rendered, render_answers (answers responses) = Ok rendered
        ∧ log out.2 = log w ++ [ModelCall (analyze_messages rendered)])
     ∨ (∃ key, render_answers (answers responses) = Raised (KeyError key)
          ∧ out = (Raised (HTTPException 500 (StrOf (KeyError key))), w))).
Proof.
  cbn zeta. rewrite analyze_responses_run.
  pose proof (render_answers_modelled (answers responses)) as Hm.
  destruct (render_answers (answers responses)) as [rendered|e|] eqn:Hr; [| |done].
  - split; [done|]. left. by exists rendered.
  - split; [done|]. right.
    destruct (render_answers_raises _ _ Hr) as [key ->]. by exists key.
Qed.

(** X13.  The loop of lines 214-216 is idempotent: an object it has
    normalized is left as it is by a second pass, so a returned feedback can
    be sent through it again without change.  Only an object passes the loop,
    and the loop keeps its keys and their order. *)
Theorem normalize_idempotent (v v' : Json.value) :
  normalize list_keys v = Ok v' →
  normalize list_keys v' = Ok v'
  ∧ ∃ d d', v = Json.Obj d ∧ v' = Json.Obj d' ∧ map fst d' = map fst d.
Proof.
  intros (d & d' & -> & -> & Hkeys & Hget)%normalize_ok_obj; [|done].
  split; [|by exists d, d'].
  apply normalize_fixed. intros k Hk. destruct (Hget k Hk) as (x & _ & Hx).
  exists (wrap_string x). split; [done | apply wrap_string_idem].
Qed.

Lemma normalize_idempotent_witness :
  normalize list_keys (Json.Obj good_members)
  = Ok (Json.Obj (Json.dict_set (lit "strengths")
                    (Json.Arr [Json.Str (lit "Clear answers")]) good_members))
  ∧ normalize list_keys
      (Json.Obj (Json.dict_set (lit "strengths")
                   (Json.Arr [Json.Str (lit "Clear answers")]) good_members))
    = Ok (Json.Obj (Json.dict_set (lit "strengths")
                      (Json.Arr [Json.Str (lit "Clear answers")]) good_members)).
Proof.
  assert (Hn : normalize list_keys (Json.Obj good_members)
               = Ok (Json.Obj (Json.dict_set (lit "strengths")
                                 (Json.Arr [Json.Str (lit "Clear answers")])
                                 good_members)))
    by (vm_compute; reflexivity).
  split; [exact Hn|].
  exact (proj1 (normalize_idempotent _ _ Hn)).
Defined.

(** X14.  A fenced reply whose closing fence is followed by a line break is
    never parsed, whatever stands between the fences: [rsplit("\n", 1)] then
    cuts off the empty last line only, the closing fence stays in the text,
    [json.loads] rejects it, and [analyze_responses] raises the 500 error of
    the decoding failure after its one model call. *)
Theorem newline_after_closing_fence_is_500 `{Interpreter} model responses rendered w
    first_line text :
  render_answers (answers responses) = Ok rendered →
  model (analyze_messages rendered)
  = Content (first_line ++ [NL] ++ text ++ [NL] ++ fence ++ [NL]) →
  Py.startswith fence first_line = true →
  ¬ In NL first_line →
  strip_fence (first_line ++ [NL] ++ text ++ [NL] ++ fence ++ [NL])
  = Ok (text ++ [NL] ++ fence)
  ∧ analyze_responses model responses w
    = (Raised (HTTPException 500 (StrOf (HTTPException 500 (StrOf JSONDecodeError)))),
       logged w [ModelCall (analyze_messages rendered)]).
Proof.
  intros Hr Hm Hf Hfirst.
  assert (Hs : strip_fence (first_line ++ [NL] ++ text ++ [NL] ++ fence ++ [NL])
               = Ok (text ++ [NL] ++ fence))
    by by apply strip_fence_trailing_newline.
  split; [done|].
  rewrite analyze_responses_run, Hr, Hm, parse_feedback_run, Hs.
  change (text ++ [NL] ++ fence) with (text ++ [NL] ++ lit "``" ++ [backtick]).
  by rewrite !app_assoc, loads_backtick.
Qed.

Lemma newline_after_closing_fence_is_500_witness :
  render_answers (answers two_answers) = Ok (map render_pair two_pairs)
  ∧ newline_fenced_model (analyze_messages (map render_pair two_pairs))
    = Content (lit "```json" ++ [NL] ++ good_json ++ [NL] ++ fence ++ [NL])
  ∧ Py.startswith fence (lit "```json") = true
  ∧ ¬ In NL (lit "```json")
  ∧ respond (@analyze_responses ascii_interpreter newline_fenced_model two_answers
               empty_world).1
    = HttpError 500 (StrOf (HTTPException 500 (StrOf JSONDecodeError))).
Proof.
  assert (Hr : render_answers (answers two_answers) = Ok (map render_pair two_pairs))
    by (vm_compute; reflexivity).
  assert (Hm : newline_fenced_model (analyze_messages (map render_pair two_pairs))
               = Content (lit "```json" ++ [NL] ++ good_json ++ [NL] ++ fence ++ [NL])).
  { unfold newline_fenced_model, good_fenced. by rewrite <- !app_assoc. }
  assert (Hf : Py.startswith fence (lit "```json") = true) by reflexivity.
  assert (Hn : ¬ In NL (lit "```json")) by (vm_compute; intuition discriminate).
  split; [exact Hr | split; [exact Hm | split; [exact Hf | split; [exact Hn|]]]].
  by rewrite (proj2 (@newline_after_closing_fence_is_500 ascii_interpreter
                       newline_fenced_model two_answers _ empty_world _ _
                       Hr Hm Hf Hn)).
Defined.

(** X15.  A fence is only removed at the very start of the reply: when white
    space (a space, a tab, a line break) stands before the opening fence, the
    reply is handed to [json.loads] as it is, the fence is rejected there, and
    [analyze_responses] raises the 500 error of the decoding failure after its
    one model call. *)
Theorem fence_after_whitespace_is_500 `{Interpreter} model responses rendered w ws fenced :
  render_answers (answers responses) = Ok rendered →
  model (analyze_messages rendered) = Content (ws ++ fenced) →
  ws ≠ [] →
  Forall (λ c, Json.is_ws c = true) ws →
  Py.startswith fence fenced = true →
  strip_fence (ws ++ fenced) = Ok (ws ++ fenced)
  ∧ analyze_responses model responses w
    = (Raised (HTTPException 500 (StrOf (HTTPException 500 (StrOf JSONDecodeError)))),
       logged w [ModelCall (analyze_messages rendered)]).
Proof.
  intros Hr Hm Hne Hws Hf.
  assert (Hs : strip_fence (ws ++ fenced) = Ok (ws ++ fenced)).
  { unfold strip_fence. destruct ws as [|c ws]; [done|].
    apply Forall_cons in Hws as [Hc _].
    change (Py.startswith fence ((c :: ws) ++ fenced))
      with ((96 =? c) && Py.startswith (lit "``") (ws ++ fenced)).
    destruct (N.eqb_spec 96 c) as [<- | _]; [done | done]. }
  split; [done|].
  by rewrite analyze_responses_run, Hr, Hm, parse_feedback_run, Hs,
    loads_fence_after_space.
Qed.

Lemma fence_after_whitespace_is_500_witness :
  render_answers (answers two_answers) = Ok (map render_pair two_pairs)
  ∧ space_fenced_model (analyze_messages (map render_pair two_pairs))
    = Content ([NL] ++ good_fenced)
  ∧ [NL] ≠ []
  ∧ Forall (λ c, Json.is_ws c = true) [NL]
  ∧ Py.startswith fence good_fenced = true
  ∧ respond (@analyze_responses ascii_interpreter space_fenced_model two_answers
               empty_world).1
    = HttpError 500 (StrOf (HTTPException 500 (StrOf JSONDecodeError))).
Proof.
  assert (Hr : render_answers (answers two_answers) = Ok (map render_pair two_pairs))
    by (vm_compute; reflexivity).
  assert (Hm : space_fenced_model (analyze_messages (map render_pair two_pairs))
               = Content ([NL] ++ good_fenced)) by reflexivity.
  assert (Hne : [NL] ≠ []) by discriminate.
  assert (Hws : Forall (λ c, Json.is_ws c = true) [NL]) by (by repeat constructor).
  assert (Hf : Py.startswith fence good_fenced = true) by reflexivity.
  split; [exact Hr | split; [exact Hm | split; [exact Hne | split; [exact Hws |
    split; [exact Hf|]]]]].
  by rewrite (proj2 (@fence_after_whitespace_is_500 ascii_interpreter
                       space_fenced_model two_answers _ empty_world _ _
                       Hr Hm Hne Hws Hf)).
Defined.
